(** * Scroll-velocity smoothing, capability gating and effect registration

    A shallow embedding of the site's motion scripts: the two revisions of the
    GSAP animation controller and the mobile override script.

    Number model.  JavaScript numbers are idealised as rationals ([Q]):
    scroll offsets, pointer coordinates, durations and tween targets are
    exact, and equalities between computed numbers are stated with [==]. *)

From Stdlib Require Import PrimFloat.
From Stdlib Require Import String Ascii List Bool Arith ZArith QArith Qabs Lia Lqa.
Import ListNotations.

Local Open Scope string_scope.
Local Open Scope list_scope.
Local Open Scope Q_scope.

(* ------------------------------------------------------------------ *)
(** ** Array helpers *)

(** [Array.prototype.reduce((a, b) => a + b, 0)]. *)
Definition sum (l : list Q) : Q := fold_left Qplus l 0.

(** The last [n] entries of a list, oldest first. *)
Definition lastn {A} (n : nat) (l : list A) : list A :=
  skipn (length l - n) l.

(** Arithmetic mean of a window. *)
Definition mean (l : list Q) : Q := sum l / inject_Z (Z.of_nat (length l)).

(* ------------------------------------------------------------------ *)
(** ** The velocity estimate (closure state of [scrollVelocityParallax]) *)

Module Velocity.

Record state := mk {
  lastScrollY : Q;
  scrollVelocity : Q;
  velocityHistory : list Q
}.

(** [let lastScrollY = window.scrollY; let scrollVelocity = 0;
     let velocityHistory = [];] *)
Definition init (scrollY : Q) : state :=
  {| lastScrollY := scrollY; scrollVelocity := 0; velocityHistory := [] |}.

(** [Math.abs(currentScrollY - lastScrollY)] *)
Definition instantVelocity (currentScrollY : Q) (s : state) : Q :=
  Qabs (currentScrollY - lastScrollY s).

(** [velocityHistory.push(v); if (velocityHistory.length > 5)
     velocityHistory.shift();] *)
Definition pushShift (h : list Q) (v : Q) : list Q :=
  let h' := h ++ [v] in
  if (5 <? length h')%nat then tl h' else h'.

(** The body shared by [updateVelocity] (first revision) and by the scroll
    listener of the second revision; [currentScrollY] is the value read
    from [window.scrollY]. *)
Definition sample (currentScrollY : Q) (s : state) : state :=
  let h := pushShift (velocityHistory s) (instantVelocity currentScrollY s) in
  {| lastScrollY := currentScrollY;
     scrollVelocity := sum h / inject_Z (Z.of_nat (length h));
     velocityHistory := h |}.

(** Feeding a sequence of scroll positions, one sample each. *)
Definition run (s : state) (ys : list Q) : state :=
  fold_left (fun s y => sample y s) ys s.

(** The absolute deltas between successive positions, starting from
    [last]. *)
Fixpoint deltas (last : Q) (ys : list Q) : list Q :=
  match ys with
  | [] => []
  | y :: r => Qabs (y - last) :: deltas y r
  end.

End Velocity.

(* ------------------------------------------------------------------ *)
(** ** Throttle and animation-frame coalescing (first revision)

    The event loop seen from the scroll sampler: the closure variables of
    [throttle] and [scrollVelocityParallax], the pending [setTimeout]
    deadlines and the queue of pending animation-frame callbacks.  The last
    two fields are ghost counters: the number of
    [window.requestAnimationFrame] calls and of [updateVelocity] runs. *)

Module Sched.

Record world := mk {
  now : Z;                      (* wall clock, in ms *)
  scrollY : Q;                  (* window.scrollY *)
  inThrottle : bool;
  timers : list Z;              (* deadlines of pending setTimeout callbacks *)
  ticking : bool;
  frameCallbacks : nat;         (* pending requestAnimationFrame callbacks *)
  vel : Velocity.state;
  requested : nat;
  sampled : nat
}.

(** [scrollVelocityParallax] binds its closure state at time [t], when
    the page is scrolled to [y]. *)
Definition init (t : Z) (y : Q) : world :=
  {| now := t; scrollY := y; inThrottle := false; timers := [];
     ticking := false; frameCallbacks := 0; vel := Velocity.init y;
     requested := 0; sampled := 0 |}.

Definition updateVelocity (w : world) : world :=
  {| now := now w; scrollY := scrollY w; inThrottle := inThrottle w;
     timers := timers w;
     ticking := false;
     frameCallbacks := frameCallbacks w;
     vel := Velocity.sample (scrollY w) (vel w);
     requested := requested w; sampled := S (sampled w) |}.

(** [window.requestAnimationFrame(updateVelocity)] *)
Definition requestAnimationFrame (w : world) : world :=
  {| now := now w; scrollY := scrollY w; inThrottle := inThrottle w;
     timers := timers w; ticking := ticking w;
     frameCallbacks := S (frameCallbacks w);
     vel := vel w;
     requested := S (requested w); sampled := sampled w |}.

Definition set_ticking (b : bool) (w : world) : world :=
  {| now := now w; scrollY := scrollY w; inThrottle := inThrottle w;
     timers := timers w; ticking := b;
     frameCallbacks := frameCallbacks w; vel := vel w;
     requested := requested w; sampled := sampled w |}.

Definition set_inThrottle (b : bool) (w : world) : world :=
  {| now := now w; scrollY := scrollY w; inThrottle := b;
     timers := timers w; ticking := ticking w;
     frameCallbacks := frameCallbacks w; vel := vel w;
     requested := requested w; sampled := sampled w |}.

Definition set_timers (l : list Z) (w : world) : world :=
  {| now := now w; scrollY := scrollY w; inThrottle := inThrottle w;
     timers := l; ticking := ticking w;
     frameCallbacks := frameCallbacks w; vel := vel w;
     requested := requested w; sampled := sampled w |}.

(** The browser advances the clock and the scroll offset. *)
Definition at_time (t : Z) (w : world) : world :=
  {| now := t; scrollY := scrollY w; inThrottle := inThrottle w;
     timers := timers w; ticking := ticking w;
     frameCallbacks := frameCallbacks w; vel := vel w;
     requested := requested w; sampled := sampled w |}.

Definition scrolled_to (y : Q) (w : world) : world :=
  {| now := now w; scrollY := y; inThrottle := inThrottle w;
     timers := timers w; ticking := ticking w;
     frameCallbacks := frameCallbacks w; vel := vel w;
     requested := requested w; sampled := sampled w |}.

Definition clear_frameCallbacks (w : world) : world :=
  {| now := now w; scrollY := scrollY w; inThrottle := inThrottle w;
     timers := timers w; ticking := ticking w;
     frameCallbacks := 0; vel := vel w;
     requested := requested w; sampled := sampled w |}.

(** [if (!ticking) { window.requestAnimationFrame(updateVelocity);
     ticking = true; }] *)
Definition handleScroll (w : world) : world :=
  if ticking w then w else set_ticking true (requestAnimationFrame w).

(** [setTimeout(() => inThrottle = false, limit)] *)
Definition setTimeout (limit : Z) (w : world) : world :=
  set_timers (timers w ++ [(now w + limit)%Z]) w.

(** [if (!inThrottle) { func.apply(context, args); inThrottle = true;
     setTimeout(() => inThrottle = false, limit); }] *)
Definition throttle (func : world -> world) (limit : Z) (w : world) : world :=
  if inThrottle w then w
  else setTimeout limit (set_inThrottle true (func w)).

(** [window.addEventListener('scroll', throttle(handleScroll, 50), ...)] *)
Definition scrollListener : world -> world := throttle handleScroll 50.

(** What the browser delivers: a scroll event (the page is now scrolled to
    [y]), an animation frame, or the firing of the oldest pending timer. *)
Inductive event :=
| Scroll (t : Z) (y : Q)
| Frame (t : Z)
| Timeout (t : Z).

Definition time (ev : event) : Z :=
  match ev with Scroll t _ => t | Frame t => t | Timeout t => t end.

(** One turn of the event loop.  [None]: the browser cannot deliver this
    event (the clock would run backwards, or no timer is due). *)
Definition step (w : world) (ev : event) : option world :=
  if (time ev <? now w)%Z then None else
  match ev with
  | Scroll t y => Some (scrollListener (scrolled_to y (at_time t w)))
  | Frame t =>
      Some (Nat.iter (frameCallbacks w) updateVelocity
              (clear_frameCallbacks (at_time t w)))
  | Timeout t =>
      match timers w with
      | d :: rest =>
          if (d <=? t)%Z
          then Some (set_inThrottle false (set_timers rest (at_time t w)))
          else None
      | [] => None
      end
  end.

Fixpoint exec (w : world) (evs : list event) : option world :=
  match evs with
  | [] => Some w
  | ev :: r => match step w ev with Some w' => exec w' r | None => None end
  end.

End Sched.

(* ------------------------------------------------------------------ *)
(** ** Second revision: the scroll listener samples on every event *)

Module SchedV2.

(** [window.addEventListener('scroll', () => { ... })]: the listener reads
    [window.scrollY] and updates the estimate at once. *)
Definition scrollListener (scrollY : Q) (s : Velocity.state) : Velocity.state :=
  Velocity.sample scrollY s.

End SchedV2.

(* ------------------------------------------------------------------ *)
(** ** Invariants of the event loop *)

(** What holds of the closure flags in every state the event loop reaches:
    a frame callback is pending exactly when [ticking] is set, and a timer
    is pending exactly when [inThrottle] is set. *)
Definition sched_inv (w : Sched.world) : Prop :=
  Sched.frameCallbacks w = (if Sched.ticking w then 1 else 0)%nat
  /\ (if Sched.inThrottle w then exists d, Sched.timers w = [d]
      else Sched.timers w = []).

(** [w] is inside the throttle window opened at time [t]: the throttle is
    closed, its timer is due at [t + 50], and [r] frames have been requested
    so far. *)
Definition in_window (t : Z) (r : nat) (w : Sched.world) : Prop :=
  Sched.inThrottle w = true
  /\ Sched.timers w = [(t + 50)%Z]
  /\ Sched.requested w = r.

(* ------------------------------------------------------------------ *)
(** ** Device classification

    [/Android|webOS|iPhone|iPad|iPod|BlackBerry|IEMobile|Opera Mini/i
       .test(navigator.userAgent)]: a case-insensitive substring match.
    Without the [u] flag a character outside ASCII never matches an ASCII
    letter, so folding the ASCII letters is exact. *)

Definition toLower (c : ascii) : ascii :=
  let n := nat_of_ascii c in
  if ((65 <=? n) && (n <=? 90))%nat then ascii_of_nat (n + 32) else c.

Fixpoint lower (s : string) : string :=
  match s with
  | EmptyString => EmptyString
  | String c r => String (toLower c) (lower r)
  end.

(** [p] occurs in [s] (at some position). *)
Fixpoint occursIn (p s : string) : bool :=
  String.prefix p s ||
  match s with
  | EmptyString => false
  | String _ r => occursIn p r
  end.

Definition mobileTokens : list string :=
  ["Android"; "webOS"; "iPhone"; "iPad"; "iPod"; "BlackBerry"; "IEMobile";
   "Opera Mini"].

Definition isMobileUA (userAgent : string) : bool :=
  existsb (fun tok => occursIn (lower tok) (lower userAgent)) mobileTokens.

(* ------------------------------------------------------------------ *)
(** ** The DOM and capability boundary *)

Definition elem := nat.

Inductive target := Document | Window | Node (e : elem).

(** The functions the scripts hand to the browser or to the animation
    capability. *)
Inductive callback :=
| OnDomContentLoaded          (* function() { initPremiumAnimations(); } *)
| OnResize                    (* ScrollTrigger.refresh() *)
| OnScroll                    (* the velocity sampler's scroll listener *)
| OnTouchStartMulti           (* preventDefault on multi-touch *)
| OnTouchStartRecord          (* touchStartY = ... *)
| OnTouchMove
| OnMouseEnter (button : elem)
| OnMouseLeave (button : elem)
| OnMouseMove (button : elem)
| MatchMobile | MatchDesktop  (* ScrollTrigger.matchMedia branches *)
| ParallaxOnUpdate
| VelocityY (index : nat)
| VelocityRotation (index : nat)
| VelocityOnUpdate (element : elem)
| OnMobileReady               (* mobile override: run the three steps *)
| OnTouchStartScrollable.     (* mobile override: stopPropagation *)

(** Object literals passed to the capability. *)
Unset Elimination Schemes.
Inductive value :=
| VNum (q : Q)
| VStr (s : string)
| VBool (b : bool)
| VElem (e : elem)
| VFun (f : callback)
| VObj (fields : list (string * value)).
Set Elimination Schemes.

Definition props := list (string * value).

(** A style rule: selectors and declarations (property, value, important). *)
Record cssRule := mkRule {
  selectors : list string;
  declarations : list (string * string * bool)
}.

(** The calls a script makes on the page and on the animation capability;
    each may raise. *)
Inductive call :=
| ClassListAdd (cls : string)            (* document.documentElement.classList.add *)
| RegisterPlugin                         (* gsap.registerPlugin(ScrollTrigger) *)
| NormalizeScroll (cfg : props)
| SaveStyles (sel : string)
| MatchMedia (cfg : props)
| Config (cfg : props)
| AddEventListener (t : target) (type : string) (f : callback) (opts : props)
| GsapSet (el : elem) (vars : props)
| GsapTo (el : elem) (vars : props)
| GsapFrom (el : elem) (vars : props)
| GsapFromTo (el : elem) (fromVars toVars : props)
| GsapTimeline (vars : props)
| AppendStyle (css : list cssRule)       (* document.head.appendChild(style) *)
| SetTouchAction (v : string)            (* documentElement.style.touchAction *)
| StopPropagation
| PreventDefault.

(** What a run leaves behind, in order. *)
Inductive effect :=
| Did (c : call)
| ConsoleLog (msg : string)
| ConsoleError (msg : string) (err : call).

(** The page and runtime a script is loaded into.  [throws] says which
    calls raise; the error value is the call that raised. *)
Record env := mkEnv {
  gsapDefined : bool;                    (* typeof gsap !== 'undefined' *)
  scrollTriggerDefined : bool;
  prefersReducedMotion : bool;           (* matchMedia(...).matches *)
  userAgent : string;
  readyState : string;                   (* document.readyState *)
  querySelectorAll : string -> list elem;
  throws : call -> bool
}.

Definition querySelector (e : env) (sel : string) : option elem :=
  hd_error (querySelectorAll e sel).

Definition isMobile (e : env) : bool := isMobileUA (userAgent e).

(** The same page where no call raises. *)
Definition quiet (e : env) : env :=
  {| gsapDefined := gsapDefined e;
     scrollTriggerDefined := scrollTriggerDefined e;
     prefersReducedMotion := prefersReducedMotion e;
     userAgent := userAgent e;
     readyState := readyState e;
     querySelectorAll := querySelectorAll e;
     throws := fun _ => false |}.

(** *** Traces with exceptions *)

Inductive outcome := Normal | Thrown (err : call).

Definition M := (list effect * outcome)%type.

Definition ret : M := ([], Normal).

Definition andThen (m1 m2 : M) : M :=
  match m1 with
  | (t1, Normal) => (t1 ++ fst m2, snd m2)
  | (t1, Thrown err) => (t1, Thrown err)
  end.

Notation "m1 ;; m2" := (andThen m1 m2) (at level 61, right associativity).

Definition perform (e : env) (c : call) : M :=
  if throws e c then ([], Thrown c) else ([Did c], Normal).

Definition log (msg : string) : M := ([ConsoleLog msg], Normal).

(** [try { m } catch (error) { console.error(msg, error); }] *)
Definition tryCatch (m : M) (msg : string) : M :=
  match m with
  | (t, Normal) => (t, Normal)
  | (t, Thrown err) => (t ++ [ConsoleError msg err], Normal)
  end.

(** [Array.prototype.forEach((item, index) => ...)] *)
Fixpoint forEachFrom {A} (i : nat) (l : list A) (f : A -> nat -> M) : M :=
  match l with
  | [] => ret
  | a :: r => f a i ;; forEachFrom (S i) r f
  end.

Definition forEach {A} (l : list A) (f : A -> nat -> M) : M :=
  forEachFrom 0 l f.

Definition num (n : nat) : Q := inject_Z (Z.of_nat n).

(** The trace a failure-free run would leave, replayed under [th]: it stops
    at the first call that raises. *)
Fixpoint cut (th : call -> bool) (l : list effect) : M :=
  match l with
  | [] => ret
  | Did c :: r => if th c then ([], Thrown c) else ([Did c], Normal) ;; cut th r
  | x :: r => ([x], Normal) ;; cut th r
  end.

(* ------------------------------------------------------------------ *)
(** ** Effect bindings common to both revisions *)

Definition scrollTrigger (trigger : value) (start finish : string) (scrub : Q)
  : string * value :=
  ("scrollTrigger",
   VObj [("trigger", trigger); ("start", VStr start); ("end", VStr finish);
         ("scrub", VNum scrub)]).

(** 2. Image focus transition *)
Definition imageFocusTransition (e : env) : M :=
  forEach (querySelectorAll e ".cs_about_thumbnail_1 img, .cs_testimonial_thumbnail img")
    (fun img _ =>
       perform e (GsapSet img
         [("filter", VStr "blur(1.5px) brightness(0.95)"); ("scale", VNum 1.02)]) ;;
       perform e (GsapTo img
         [("filter", VStr "blur(0px) brightness(1)"); ("scale", VNum 1);
          ("duration", VNum 2); ("ease", VStr "power2.inOut");
          scrollTrigger (VElem img) "top 85%" "center 50%" 1.5])).

(** The velocity reaction registered per card (after the sampler is bound). *)
Definition velocityElements (e : env) : M :=
  forEach (querySelectorAll e ".property-card")
    (fun element index =>
       perform e (GsapSet element [("transformOrigin", VStr "center center")]) ;;
       perform e (GsapTimeline [("paused", VBool true)]) ;;
       perform e (GsapTo element
         [("y", VFun (VelocityY index));
          ("rotation", VFun (VelocityRotation index));
          ("duration", VNum 0.6); ("ease", VStr "power2.inOut");
          ("onUpdate", VFun (VelocityOnUpdate element))])).

(** [index % 2 === 0 ? -1 : 1] *)
Definition direction (index : nat) : Q := if Nat.even index then -1 else 1.

(** [y: () => scrollVelocity * 0.03 * (index % 2 === 0 ? -1 : 1)] *)
Definition velocityY (index : nat) (scrollVelocity : Q) : Q :=
  scrollVelocity * 0.03 * direction index.

(** [rotation: () => scrollVelocity * 0.005 * (index % 2 === 0 ? -1 : 1)] *)
Definition velocityRotation (index : nat) (scrollVelocity : Q) : Q :=
  scrollVelocity * 0.005 * direction index.

(** [onUpdate]: [if (scrollVelocity < 0.5) gsap.to(element, { y: 0, ... })] *)
Definition velocityOnUpdate (element : elem) (scrollVelocity : Q) : list call :=
  if Qlt_le_dec scrollVelocity 0.5
  then [GsapTo element [("y", VNum 0); ("rotation", VNum 0);
                        ("duration", VNum 0.8); ("ease", VStr "power2.inOut")]]
  else [].

(** 4. Pinned section with micro-movements *)
Definition pinnedSectionMicroMovements (e : env) : M :=
  forEach (querySelectorAll e ".cs_card.cs_style_5")
    (fun card index =>
       perform e (GsapTo card
         [("y", VStr "random(-2, 2)"); ("rotation", VStr "random(-0.2, 0.2)");
          ("duration", VStr "random(4, 6)"); ("ease", VStr "sine.inOut");
          ("repeat", VNum (-1)); ("yoyo", VBool true);
          ("delay", VNum (num index * 0.3))]) ;;
       perform e (GsapFromTo card
         [("y", VNum 30); ("opacity", VNum 0); ("scale", VNum 0.98)]
         [("y", VNum 0); ("opacity", VNum 1); ("scale", VNum 1);
          ("duration", VNum 1.2); ("ease", VStr "power2.inOut");
          scrollTrigger (VElem card) "top 90%" "bottom 70%" 1.5])).

(** 5. Subtle perspective depth *)
Definition subtlePerspectiveDepth (e : env) : M :=
  forEach (querySelectorAll e ".specialites, .cs_testimonial")
    (fun section _ =>
       perform e (GsapSet section [("transformPerspective", VNum 1200)]) ;;
       perform e (GsapFromTo section
         [("z", VNum (-50)); ("opacity", VNum 0.9)]
         [("z", VNum 0); ("opacity", VNum 1);
          ("duration", VNum 1.5); ("ease", VStr "power2.inOut");
          scrollTrigger (VElem section) "top 85%" "center 60%" 2])) ;;
  forEach (querySelectorAll e ".cs_info_item")
    (fun box index =>
       perform e (GsapTo box
         [("z", VNum (25 * (num index + 1)));
          ("duration", VNum 2.5); ("ease", VStr "power1.inOut");
          scrollTrigger (VElem box) "top bottom" "bottom top" 2.5])).

(** 6. Magnetic hover effect: the three listeners per button *)
Definition magneticHoverEffect (e : env) : M :=
  forEach (querySelectorAll e ".cs_btn.cs_style_1")
    (fun button _ =>
       perform e (AddEventListener (Node button) "mouseenter" (OnMouseEnter button) []) ;;
       perform e (AddEventListener (Node button) "mouseleave" (OnMouseLeave button) []) ;;
       perform e (AddEventListener (Node button) "mousemove" (OnMouseMove button) [])).

(** The about-section image parallax closing [multiLayerParallax]. *)
Definition aboutImages (e : env) : M :=
  forEach (querySelectorAll e ".cs_about_thumbnail img")
    (fun img index =>
       perform e (GsapTo img
         [("yPercent", VNum (-10 * (num index + 1)));
          ("ease", VStr "power1.inOut");
          scrollTrigger (VStr ".cs_about") "top bottom" "bottom top" 3])).

Definition disabledMessage : string :=
  "GSAP animations disabled - library not available or reduced motion preferred".

Definition errorMessage : string := "Error initializing GSAP animations:".

(** The handlers of the magnetic buttons. *)
Module Magnetic.

Record mouseEvent := mkEvent { clientX : Q; clientY : Q }.

(** [button.getBoundingClientRect()] *)
Record rect := mkRect { left : Q; top : Q; width : Q; height : Q }.

Definition centerX (r : rect) : Q := left r + width r / 2.
Definition centerY (r : rect) : Q := top r + height r / 2.

(** [const x = e.clientX - rect.left - rect.width / 2;] *)
Definition offsetX (r : rect) (ev : mouseEvent) : Q :=
  clientX ev - left r - width r / 2.

(** [const y = e.clientY - rect.top - rect.height / 2;] *)
Definition offsetY (r : rect) (ev : mouseEvent) : Q :=
  clientY ev - top r - height r / 2.

Definition mouseenter (button : elem) (r : rect) (ev : mouseEvent) : call :=
  let x := offsetX r ev in
  let y := offsetY r ev in
  GsapTo button [("x", VNum (x * 0.08)); ("y", VNum (y * 0.08));
                 ("duration", VNum 0.4); ("ease", VStr "power2.inOut")].

Definition mouseleave (button : elem) : call :=
  GsapTo button [("x", VNum 0); ("y", VNum 0);
                 ("duration", VNum 0.6); ("ease", VStr "power2.inOut")].

Definition mousemove (button : elem) (r : rect) (ev : mouseEvent) : call :=
  let x := offsetX r ev in
  let y := offsetY r ev in
  GsapTo button [("x", VNum (x * 0.08)); ("y", VNum (y * 0.08));
                 ("duration", VNum 0.15); ("ease", VStr "power2.out")].

(** [x * 0.08] as the engine computes it, in IEEE 754 binary64. *)
#[warnings="-inexact-float"]
Definition displace64 (offset : PrimFloat.float) : PrimFloat.float :=
  PrimFloat.mul offset 0.08%float.

(** Reading a numeric property back from a tween. *)
Fixpoint field (name : string) (vars : props) : option Q :=
  match vars with
  | [] => None
  | (k, VNum q) :: r => if String.eqb k name then Some q else field name r
  | _ :: r => field name r
  end.

Definition tweenField (name : string) (c : call) : option Q :=
  match c with
  | GsapTo _ vars => field name vars
  | _ => None
  end.

End Magnetic.

(* ------------------------------------------------------------------ *)
(** ** First revision of the controller (with the mobile classification) *)

Module V1.

(** [optimizeTouchEvents] *)
Definition optimizeTouchEvents (e : env) : M :=
  perform e (AddEventListener Document "touchstart" OnTouchStartMulti
               [("passive", VBool false)]) ;;
  perform e (AddEventListener Document "touchstart" OnTouchStartRecord
               [("passive", VBool true)]) ;;
  perform e (AddEventListener Document "touchmove" OnTouchMove
               [("passive", VBool false)]).

Record layer := mkLayer { element : string; speed : Q; mobile : bool }.

Definition parallaxElements : list layer :=
  [ mkLayer ".cs_hero_content_wrapper" 0.3 true;
    mkLayer ".cs_hero_info_box" 0.2 false;
    mkLayer ".cs_hero_shape_2" 0.15 false ].

(** The fade-in of the function's own mobile branch. *)
Definition heroFadeIn (heroSection : elem) : call :=
  GsapFrom heroSection
    [("opacity", VNum 0.8); ("y", VNum 20); ("duration", VNum 1);
     ("ease", VStr "power2.out")].

Definition multiLayerParallax (e : env) : M :=
  match querySelector e ".cs_hero" with
  | None => ret
  | Some heroSection =>
      if isMobile e then perform e (heroFadeIn heroSection)
      else
        forEach parallaxElements
          (fun layer _ =>
             if isMobile e && negb (mobile layer) then ret
             else
               match querySelector e (element layer) with
               | Some el =>
                   perform e (GsapTo el
                     [("yPercent", VNum (-30 * speed layer));
                      ("ease", VStr "power1.inOut");
                      ("scrollTrigger",
                       VObj [("trigger", VElem heroSection);
                             ("start", VStr "top top");
                             ("end", VStr "bottom top");
                             ("scrub", VNum (if isMobile e then 3.5 else 2.5));
                             ("invalidateOnRefresh", VBool true);
                             ("onUpdate", VFun ParallaxOnUpdate)])])
               | None => ret
               end) ;;
        aboutImages e
  end.

Definition scrollVelocityParallax (e : env) : M :=
  if isMobile e then ret
  else
    perform e (AddEventListener Window "scroll" OnScroll
                 [("passive", VBool true)]) ;;
    velocityElements e.

(** The body of the [try] block of [initPremiumAnimations]. *)
Definition registrationPass (e : env) : M :=
  (if negb (isMobile e) then
     multiLayerParallax e ;;
     scrollVelocityParallax e ;;
     pinnedSectionMicroMovements e ;;
     subtlePerspectiveDepth e ;;
     magneticHoverEffect e
   else ret) ;;
  imageFocusTransition e ;;
  (if isMobile e then optimizeTouchEvents e else ret).

Definition initPremiumAnimations (e : env) : M :=
  tryCatch (registrationPass e) errorMessage.

(** The top level of the script. *)
Definition main (e : env) : M :=
  if negb (gsapDefined e) || prefersReducedMotion e then log disabledMessage
  else
    (if isMobile e then perform e (ClassListAdd "mobile-device") else ret) ;;
    (if scrollTriggerDefined e then
       perform e RegisterPlugin ;;
       perform e (NormalizeScroll [("allowNestedScroll", VBool true);
                                   ("ignoreMobileResize", VBool true)]) ;;
       (if isMobile e then
          perform e (SaveStyles ".cs_animate_on_scroll") ;;
          perform e (MatchMedia [("(max-width: 767px)", VFun MatchMobile);
                                 ("(min-width: 768px)", VFun MatchDesktop)])
        else ret) ;;
       perform e (Config
         [("autoRefreshEvents", VStr "visibilitychange,DOMContentLoaded,load");
          ("ignoreMobileResize", VBool true);
          ("syncCallbacks", VBool true);
          ("force3D", VBool false)])
     else ret) ;;
    perform e (AddEventListener Document "DOMContentLoaded" OnDomContentLoaded []) ;;
    perform e (AddEventListener Window "resize" OnResize []).

End V1.

(* ------------------------------------------------------------------ *)
(** ** Second revision of the controller (no device classification) *)

Module V2.

Record layer := mkLayer { element : string; speed : Q }.

Definition parallaxElements : list layer :=
  [ mkLayer ".cs_hero_content_wrapper" 0.3;
    mkLayer ".cs_hero_info_box" 0.2;
    mkLayer ".cs_hero_shape_2" 0.15 ].

Definition multiLayerParallax (e : env) : M :=
  match querySelector e ".cs_hero" with
  | None => ret
  | Some heroSection =>
      forEach parallaxElements
        (fun layer _ =>
           match querySelector e (element layer) with
           | Some el =>
               perform e (GsapTo el
                 [("yPercent", VNum (-30 * speed layer));
                  ("ease", VStr "power1.inOut");
                  ("scrollTrigger",
                   VObj [("trigger", VElem heroSection);
                         ("start", VStr "top top");
                         ("end", VStr "bottom top");
                         ("scrub", VNum 2.5);
                         ("invalidateOnRefresh", VBool true)])])
           | None => ret
           end) ;;
      aboutImages e
  end.

Definition scrollVelocityParallax (e : env) : M :=
  perform e (AddEventListener Window "scroll" OnScroll []) ;;
  velocityElements e.

(** The body of the [try] block of [initPremiumAnimations]. *)
Definition registrationPass (e : env) : M :=
  multiLayerParallax e ;;
  imageFocusTransition e ;;
  scrollVelocityParallax e ;;
  pinnedSectionMicroMovements e ;;
  subtlePerspectiveDepth e ;;
  magneticHoverEffect e.

Definition initPremiumAnimations (e : env) : M :=
  tryCatch (registrationPass e) errorMessage.

Definition main (e : env) : M :=
  if negb (gsapDefined e) || prefersReducedMotion e then log disabledMessage
  else
    (if scrollTriggerDefined e then perform e RegisterPlugin else ret) ;;
    perform e (AddEventListener Document "DOMContentLoaded" OnDomContentLoaded []) ;;
    perform e (AddEventListener Window "resize" OnResize []).

End V2.

(** Loading a page: the script's top level runs, then the browser fires
    [DOMContentLoaded] and runs the listener if the script registered one.
    An exception leaving either of them reaches the page. *)
Definition listensDomContentLoaded (x : effect) : bool :=
  match x with
  | Did (AddEventListener Document type _ _) => String.eqb type "DOMContentLoaded"
  | _ => false
  end.

Definition pageLoad (main ready : env -> M) (e : env) : M :=
  let r := main e in
  if existsb listensDomContentLoaded (fst r) then
    let h := ready e in
    (fst r ++ fst h, match snd r with Normal => snd h | Thrown err => Thrown err end)
  else r.

(** The bindings a run registered: the calls it completed. *)
Fixpoint bindings (t : list effect) : list call :=
  match t with
  | [] => []
  | Did c :: r => c :: bindings r
  | _ :: r => bindings r
  end.

(* ------------------------------------------------------------------ *)
(** ** The mobile override script *)

Module MobileOptimize.

Definition overrideStyle : list cssRule :=
  [ mkRule ["*"; "*:before"; "*:after"]
      [("transition", "none", true);
       ("animation", "none", true);
       ("transform", "none", true);
       ("opacity", "1", true);
       ("transform-style", "flat", true);
       ("backface-visibility", "visible", true);
       ("perspective", "none", true)];
    mkRule ["html"; "body"]
      [("-webkit-overflow-scrolling", "touch", false);
       ("overflow", "auto", false);
       ("height", "100%", false);
       ("position", "relative", false)] ].

Definition disableAnimations (e : env) : M :=
  perform e (AppendStyle overrideStyle).

Definition optimizeScrolling (e : env) : M :=
  perform e (SetTouchAction "manipulation") ;;
  perform e (AddEventListener Document "touchstart" OnTouchStartScrollable
               [("passive", VBool true)]).

(** [if (e.target.closest('.scrollable')) e.stopPropagation();] *)
Definition touchstart (closestScrollable : option elem) : list call :=
  match closestScrollable with
  | Some _ => [StopPropagation]
  | None => []
  end.

Definition disableHoverEffects (e : env) : M :=
  perform e (ClassListAdd "no-hover").

Definition optimise (e : env) : M :=
  disableAnimations e ;; optimizeScrolling e ;; disableHoverEffects e.

Definition main (e : env) : M :=
  if negb (isMobile e) then ret
  else if String.eqb (readyState e) "loading" then
    perform e (AddEventListener Document "DOMContentLoaded" OnMobileReady [])
  else optimise e.

End MobileOptimize.

(* ------------------------------------------------------------------ *)
(** ** Relating a run to the failure-free run *)

(** [m] is the failure-free run [m0] stopped at the first call that raises
    under [th]. *)
Definition agrees (th : call -> bool) (m m0 : M) : Prop :=
  snd m0 = Normal /\ m = cut th (fst m0).

(** The only [gsap.from] of the scripts is the hero fade-in. *)
Definition isFadeIn (c : call) : bool :=
  match c with GsapFrom _ _ => true | _ => false end.

(** A run that performs no [gsap.from]. *)
Definition fadeFree (m : M) : Prop :=
  existsb isFadeIn (bindings (fst m)) = false.

Definition withReducedMotion (b : bool) (e : env) : env :=
  {| gsapDefined := gsapDefined e;
     scrollTriggerDefined := scrollTriggerDefined e;
     prefersReducedMotion := b;
     userAgent := userAgent e;
     readyState := readyState e;
     querySelectorAll := querySelectorAll e;
     throws := throws e |}.

(** *** Sample pages *)

(** A page with one element for every selector the scripts query. *)
Definition samplePage (sel : string) : list elem :=
  if String.eqb sel ".cs_hero" then [1%nat]
  else if String.eqb sel ".cs_hero_content_wrapper" then [2%nat]
  else if String.eqb sel ".property-card" then [3%nat; 4%nat]
  else if String.eqb sel ".cs_btn.cs_style_1" then [5%nat]
  else if String.eqb sel ".cs_about_thumbnail_1 img, .cs_testimonial_thumbnail img"
       then [6%nat]
  else [].

Definition iPhoneUA : string :=
  "Mozilla/5.0 (iPhone; CPU iPhone OS 16_0 like Mac OS X) AppleWebKit/605.1.15".

Definition desktopUA : string :=
  "Mozilla/5.0 (X11; Linux x86_64; rv:109.0) Gecko/20100101 Firefox/115.0".

Definition mobileEnv : env :=
  {| gsapDefined := true; scrollTriggerDefined := true;
     prefersReducedMotion := false; userAgent := iPhoneUA;
     readyState := "loading"; querySelectorAll := samplePage;
     throws := fun _ => false |}.

Definition desktopEnv : env :=
  {| gsapDefined := true; scrollTriggerDefined := true;
     prefersReducedMotion := false; userAgent := desktopUA;
     readyState := "loading"; querySelectorAll := samplePage;
     throws := fun _ => false |}.

(** A desktop page on which registering the scroll listener raises. *)
Definition failingEnv : env :=
  {| gsapDefined := true; scrollTriggerDefined := true;
     prefersReducedMotion := false; userAgent := desktopUA;
     readyState := "loading"; querySelectorAll := samplePage;
     throws := fun c => match c with
                        | AddEventListener Window _ OnScroll _ => true
                        | _ => false
                        end |}.

(** A page without the animation library. *)
Definition noGsapEnv : env :=
  {| gsapDefined := false; scrollTriggerDefined := false;
     prefersReducedMotion := false; userAgent := desktopUA;
     readyState := "loading"; querySelectorAll := samplePage;
     throws := fun _ => false |}.

(* ------------------------------------------------------------------ *)
(** ** Touch handlers of [optimizeTouchEvents] (first revision)

    A touch event is seen through the [clientY] of its touches, in order;
    reading [event.touches[0].clientY] of an event without touches raises a
    [TypeError], modelled by [None]. *)

Module Touch.

Definition Qlt_bool (a b : Q) : bool := negb (Qle_bool b a).

(** [if (event.touches.length > 1) event.preventDefault();] *)
Definition touchstartMulti (touches : list Q) : list call :=
  if (1 <? length touches)%nat then [PreventDefault] else [].

(** [touchStartY = event.touches[0].clientY;] *)
Definition touchstartRecord (touches : list Q) : option Q := hd_error touches.

(** The page geometry read by the move handler. *)
Record viewport := mkViewport {
  scrollY : Q;        (* window.scrollY *)
  innerHeight : Q;    (* window.innerHeight *)
  scrollHeight : Q    (* document.documentElement.scrollHeight *)
}.

Definition touchmove (touchStartY : Q) (v : viewport) (touches : list Q)
  : option (list call) :=
  match hd_error touches with
  | None => None
  | Some clientY =>
      Some ((if Qlt_bool clientY touchStartY
                && Qle_bool (scrollHeight v) (scrollY v + innerHeight v)
             then [PreventDefault] else [])
            ++ (if Qlt_bool touchStartY clientY && Qle_bool (scrollY v) 0
                then [PreventDefault] else []))
  end.

End Touch.

(* ------------------------------------------------------------------ *)
(** ** Bookkeeping of the throttled sampler *)

(** Every requested frame is either already sampled or still pending, and
    the frame requests are paced by the 50ms timer: while the throttle is
    closed its timer [d] was set at most 50ms ahead. *)
Definition rate_inv (t0 : Z) (w : Sched.world) : Prop :=
  (t0 <= Sched.now w)%Z
  /\ Sched.requested w = (Sched.sampled w + Sched.frameCallbacks w)%nat
  /\ (if Sched.inThrottle w
      then exists d, Sched.timers w = [d]
                     /\ (d <= Sched.now w + 50)%Z
                     /\ (50 * Z.of_nat (Sched.requested w) <= d - t0)%Z
      else (50 * Z.of_nat (Sched.requested w) <= Sched.now w - t0)%Z).

(** How many of the selectors match something on the page. *)
Definition matched (e : env) (sels : list string) : nat :=
  length (filter (fun sel => match querySelector e sel with
                             | Some _ => true
                             | None => false
                             end) sels).

Definition count (e : env) (sel : string) : nat :=
  length (querySelectorAll e sel).

(** A desktop page on which no selector matches anything and every call
    of the animation capability would raise. *)
Definition emptyPage : env :=
  {| gsapDefined := true; scrollTriggerDefined := true;
     prefersReducedMotion := false; userAgent := desktopUA;
     readyState := "complete"; querySelectorAll := fun _ => [];
     throws := fun c => match c with
                        | AddEventListener _ _ _ _ => false
                        | _ => true
                        end |}.

(** A desktop page on which registering the plugin raises. *)
Definition pluginFailsEnv : env :=
  {| gsapDefined := true; scrollTriggerDefined := true;
     prefersReducedMotion := false; userAgent := desktopUA;
     readyState := "loading"; querySelectorAll := samplePage;
     throws := fun c => match c with RegisterPlugin => true | _ => false end |}.

(** The selectors of the three parallax layers. *)
Definition layerSelectors : list string :=
  [".cs_hero_content_wrapper"; ".cs_hero_info_box"; ".cs_hero_shape_2"].

(** A run that ends normally after registering [n] bindings. *)
Definition counts (m : M) (n : nat) : Prop :=
  snd m = Normal /\ length (bindings (fst m)) = n.

(* ------------------------------------------------------------------ *)
(** ** The throttle around a function that may raise

    [func.apply(context, args)] may raise: the exception leaves [throttle]
    before [inThrottle = true] and before the timer is set.  The wrapped
    function returns or raises, in either case leaving a world behind;
    [inThrottle] and the timers belong to the closure of [throttle], out of
    the wrapped function's reach. *)

Module Raising.

Inductive result :=
| Returned (w : Sched.world)
| Raised (w : Sched.world).

Definition after (r : result) : Sched.world :=
  match r with Returned w => w | Raised w => w end.

(** [if (!inThrottle) { func.apply(context, args); inThrottle = true;
     setTimeout(() => inThrottle = false, limit); }] *)
Definition throttle (func : Sched.world -> result) (limit : Z)
           (w : Sched.world) : result :=
  if Sched.inThrottle w then Returned w
  else
    match func w with
    | Returned w1 =>
        Returned (Sched.setTimeout limit (Sched.set_inThrottle true w1))
    | Raised w1 => Raised w1
    end.

(** The closure variables of [throttle] are private to it. *)
Definition keepsThrottle (func : Sched.world -> result) : Prop :=
  forall u, Sched.inThrottle (after (func u)) = Sched.inThrottle u
            /\ Sched.timers (after (func u)) = Sched.timers u.

End Raising.

(* ------------------------------------------------------------------ *)
(** ** When scrolling stops *)

Definition isScroll (ev : Sched.event) : bool :=
  match ev with Sched.Scroll _ _ => true | _ => false end.

(** [w'] is [w] after the browser delivered frames and timer firings only:
    the page has not moved, and the estimate is either untouched or was
    sampled once, by the frame request that was pending in [w]. *)
Definition at_rest (w w' : Sched.world) : Prop :=
  Sched.scrollY w' = Sched.scrollY w
  /\ ((Sched.vel w' = Sched.vel w
       /\ Sched.ticking w' = Sched.ticking w
       /\ Sched.sampled w' = Sched.sampled w)
      \/ (Sched.ticking w = true
          /\ Sched.vel w' = Velocity.sample (Sched.scrollY w) (Sched.vel w)
          /\ Sched.ticking w' = false
          /\ Sched.sampled w' = S (Sched.sampled w))).

(* ------------------------------------------------------------------ *)
(** * Lemmas *)

Lemma lastn_short {A} (n : nat) (l : list A) :
  (length l <= n)%nat -> lastn n l = l.
Proof.
  intros H. unfold lastn. replace (length l - n)%nat with 0%nat by lia. reflexivity.
Qed.

Lemma lastn_cons_full {A} (n : nat) (a : A) (l : list A) :
  (n <= length l)%nat -> lastn n (a :: l) = lastn n l.
Proof.
  intros H. unfold lastn. simpl length.
  replace (S (length l) - n)%nat with (S (length l - n)) by lia. reflexivity.
Qed.

Lemma lastn_length {A} (n : nat) (l : list A) :
  length (lastn n l) = Nat.min n (length l).
Proof. unfold lastn. rewrite length_skipn. lia. Qed.

Lemma lastn_app_full {A} (n : nat) (l r : list A) :
  (n <= length r)%nat -> lastn n (l ++ r) = lastn n r.
Proof.
  intros H. induction l as [|a l IH]; [reflexivity|].
  simpl app. rewrite lastn_cons_full; [exact IH|].
  rewrite length_app. lia.
Qed.

Lemma pushShift_lastn (h : list Q) (v : Q) :
  (length h <= 5)%nat -> Velocity.pushShift h v = lastn 5 (h ++ [v]).
Proof.
  intros H. unfold Velocity.pushShift.
  destruct (Nat.ltb_spec 5 (length (h ++ [v]))) as [Hlt|Hle].
  - rewrite length_app in Hlt. simpl in Hlt.
    destruct h as [|a h]; [simpl in Hlt; lia|].
    simpl app. simpl tl. rewrite lastn_cons_full.
    + symmetry. apply lastn_short. rewrite length_app. simpl in *. lia.
    + rewrite length_app. simpl in *. lia.
  - symmetry. apply lastn_short. exact Hle.
Qed.

Lemma pushShift_length (h : list Q) (v : Q) :
  (length h <= 5)%nat -> (length (Velocity.pushShift h v) <= 5)%nat.
Proof.
  intros H. rewrite pushShift_lastn by exact H. rewrite lastn_length. lia.
Qed.

Lemma pushShift_nonempty (h : list Q) (v : Q) :
  (1 <= length (Velocity.pushShift h v))%nat.
Proof.
  unfold Velocity.pushShift.
  destruct (Nat.ltb_spec 5 (length (h ++ [v]))) as [Hlt|Hle].
  - destruct (h ++ [v]); simpl in *; lia.
  - rewrite length_app. simpl. lia.
Qed.

(* ------------------------------------------------------------------ *)
(** ** The retained window *)

Lemma run_snoc (s : Velocity.state) (ys : list Q) (y : Q) :
  Velocity.run s (ys ++ [y]) = Velocity.sample y (Velocity.run s ys).
Proof. unfold Velocity.run. rewrite fold_left_app. reflexivity. Qed.

Lemma run_cons (s : Velocity.state) (ys : list Q) (y : Q) :
  Velocity.run s (y :: ys) = Velocity.run (Velocity.sample y s) ys.
Proof. reflexivity. Qed.

Lemma deltas_length (last : Q) (ys : list Q) :
  length (Velocity.deltas last ys) = length ys.
Proof.
  revert last. induction ys as [|y r IH]; intros last;
    cbn [Velocity.deltas length]; [reflexivity|].
  now rewrite IH.
Qed.

Lemma deltas_nonneg (last : Q) (ys : list Q) :
  Forall (fun d => 0 <= d) (Velocity.deltas last ys).
Proof.
  revert last. induction ys as [|y r IH]; intros last;
    cbn [Velocity.deltas]; constructor.
  - apply Qabs_nonneg.
  - apply IH.
Qed.

(** The history is the last five entries of everything pushed so far. *)
Lemma run_history (s : Velocity.state) (ys : list Q) :
  (length (Velocity.velocityHistory s) <= 5)%nat ->
  Velocity.velocityHistory (Velocity.run s ys)
  = lastn 5 (Velocity.velocityHistory s
             ++ Velocity.deltas (Velocity.lastScrollY s) ys).
Proof.
  revert s. induction ys as [|y r IH]; intros s Hlen.
  - simpl. rewrite app_nil_r. symmetry. now apply lastn_short.
  - rewrite run_cons, IH.
    + cbn [Velocity.sample Velocity.velocityHistory Velocity.lastScrollY
           Velocity.deltas].
      unfold Velocity.instantVelocity.
      set (d := Qabs (y - Velocity.lastScrollY s)).
      set (ds := Velocity.deltas y r).
      set (h := Velocity.velocityHistory s) in *.
      replace (h ++ d :: ds) with ((h ++ [d]) ++ ds)
        by (rewrite <- app_assoc; reflexivity).
      unfold Velocity.pushShift.
      destruct (Nat.ltb_spec 5 (length (h ++ [d]))) as [Hlt|Hle];
        [|reflexivity].
      destruct (h ++ [d]) as [|a l] eqn:E; [simpl in Hlt; lia|].
      simpl tl. simpl app. symmetry. apply lastn_cons_full.
      rewrite length_app. simpl in Hlt. lia.
    + cbn [Velocity.sample Velocity.velocityHistory].
      now apply pushShift_length.
Qed.

Lemma run_history_length (s : Velocity.state) (ys : list Q) :
  (length (Velocity.velocityHistory s) <= 5)%nat ->
  (length (Velocity.velocityHistory (Velocity.run s ys)) <= 5)%nat.
Proof.
  intros H. rewrite run_history by exact H. rewrite lastn_length. lia.
Qed.

Lemma run_lastScrollY (s : Velocity.state) (ys : list Q) :
  Velocity.lastScrollY (Velocity.run s ys) = last ys (Velocity.lastScrollY s).
Proof.
  revert s. induction ys as [|y r IH]; intros s; [reflexivity|].
  rewrite run_cons, IH. cbn [Velocity.sample Velocity.lastScrollY].
  destruct r as [|q r]; [reflexivity|].
  change (last (y :: q :: r) (Velocity.lastScrollY s))
    with (last (q :: r) (Velocity.lastScrollY s)).
  clear IH. revert q. induction r as [|q' r IHr]; intros q; [reflexivity|].
  change (last (q :: q' :: r) y) with (last (q' :: r) y).
  change (last (q :: q' :: r) (Velocity.lastScrollY s))
    with (last (q' :: r) (Velocity.lastScrollY s)).
  apply IHr.
Qed.

(** Every sample publishes the mean of the history it leaves behind. *)
Lemma sample_velocity (y : Q) (s : Velocity.state) :
  Velocity.scrollVelocity (Velocity.sample y s)
  = mean (Velocity.velocityHistory (Velocity.sample y s)).
Proof. reflexivity. Qed.

(** The estimate held by the first revision's event loop is the estimate
    obtained by feeding the scroll offsets read at the sampling frames. *)
Lemma iter_updateVelocity_vel (n : nat) (w : Sched.world) :
  Sched.vel (Nat.iter n Sched.updateVelocity w)
  = Velocity.run (Sched.vel w) (repeat (Sched.scrollY w) n)
  /\ Sched.scrollY (Nat.iter n Sched.updateVelocity w) = Sched.scrollY w
  /\ Sched.sampled (Nat.iter n Sched.updateVelocity w) = (n + Sched.sampled w)%nat.
Proof.
  induction n as [|n [IH1 [IH2 IH3]]]; [now split|].
  change (Nat.iter (S n) Sched.updateVelocity w)
    with (Sched.updateVelocity (Nat.iter n Sched.updateVelocity w)).
  cbn [Sched.updateVelocity Sched.vel Sched.scrollY Sched.sampled].
  rewrite IH1, IH2, IH3. repeat split.
  replace (repeat (Sched.scrollY w) (S n))
    with (repeat (Sched.scrollY w) n ++ [Sched.scrollY w]).
  - now rewrite run_snoc.
  - rewrite <- repeat_cons. reflexivity.
Qed.

Lemma step_vel (w w' : Sched.world) (ev : Sched.event) :
  Sched.step w ev = Some w' ->
  exists ys, Sched.vel w' = Velocity.run (Sched.vel w) ys
             /\ Sched.sampled w' = (length ys + Sched.sampled w)%nat.
Proof.
  unfold Sched.step. destruct (Sched.time ev <? Sched.now w)%Z; [discriminate|].
  destruct ev as [t y|t|t].
  - intros [= <-]. exists [].
    unfold Sched.scrollListener, Sched.throttle, Sched.handleScroll.
    cbn. destruct (Sched.inThrottle w); [now split|].
    destruct (Sched.ticking w); now split.
  - intros [= <-].
    destruct (iter_updateVelocity_vel (Sched.frameCallbacks w)
                (Sched.clear_frameCallbacks (Sched.at_time t w))) as [H1 [_ H3]].
    eexists. split; [exact H1|]. rewrite H3, repeat_length. reflexivity.
  - destruct (Sched.timers w) as [|d rest]; [discriminate|].
    destruct (d <=? t)%Z; [|discriminate].
    intros [= <-]. exists []. now split.
Qed.

Lemma run_app (s : Velocity.state) (xs ys : list Q) :
  Velocity.run s (xs ++ ys) = Velocity.run (Velocity.run s xs) ys.
Proof. unfold Velocity.run. apply fold_left_app. Qed.

Lemma exec_vel (evs : list Sched.event) (w w' : Sched.world) :
  Sched.exec w evs = Some w' ->
  exists ys, Sched.vel w' = Velocity.run (Sched.vel w) ys
             /\ Sched.sampled w' = (length ys + Sched.sampled w)%nat.
Proof.
  revert w. induction evs as [|ev r IH]; intros w.
  - intros [= <-]. exists []. now split.
  - cbn [Sched.exec]. destruct (Sched.step w ev) as [w1|] eqn:E; [|discriminate].
    intros H. destruct (step_vel _ _ _ E) as [xs [Hx Hs]].
    destruct (IH _ H) as [ys [Hy Hs']].
    exists (xs ++ ys). rewrite run_app, <- Hx, Hy, Hs', Hs, length_app.
    split; [reflexivity|lia].
Qed.

(** C1.  Whatever scroll positions are fed to the sampler, the history
    never holds more than five deltas, it is exactly the five most recent
    absolute deltas (the oldest is the one evicted when a sixth is pushed),
    and after every sample the published velocity is the arithmetic mean of
    that retained window.  The estimate kept by the throttled event loop of
    the first revision is such a run. *)
Theorem velocity_window_fifo_mean :
  forall (y0 : Q) (ys : list Q) (y : Q),
    let s := Velocity.run (Velocity.init y0) (ys ++ [y]) in
    let ds := Velocity.deltas y0 (ys ++ [y]) in
    (length (Velocity.velocityHistory (Velocity.run (Velocity.init y0) ys)) <= 5)%nat
    /\ (length (Velocity.velocityHistory s) <= 5)%nat
    /\ Velocity.velocityHistory s = lastn 5 ds
    /\ Velocity.scrollVelocity s = mean (lastn 5 ds)
    /\ (forall a b c d e last v y',
          Velocity.velocityHistory
            (Velocity.sample y' (Velocity.mk last v [a; b; c; d; e]))
          = [b; c; d; e; Qabs (y' - last)])
    /\ (forall t0 evs,
          match Sched.exec (Sched.init t0 y0) evs with
          | Some w => exists zs,
              Sched.vel w = Velocity.run (Velocity.init y0) zs
              /\ length zs = Sched.sampled w
          | None => True
          end).
Proof.
  intros y0 ys y s ds.
  assert (H0 : (length (Velocity.velocityHistory (Velocity.init y0)) <= 5)%nat)
    by (simpl; lia).
  assert (Hh : Velocity.velocityHistory s = lastn 5 ds)
    by (subst s ds; now rewrite run_history).
  repeat split.
  - now apply run_history_length.
  - now apply run_history_length.
  - exact Hh.
  - unfold s. rewrite run_snoc, sample_velocity, <- run_snoc.
    fold s. now rewrite Hh.
  - intros t0 evs.
    destruct (Sched.exec (Sched.init t0 y0) evs) as [w|] eqn:E; [|exact I].
    destruct (exec_vel _ _ _ E) as [zs [Hz Hs]].
    exists zs. split; [exact Hz|]. simpl in Hs. lia.
Qed.

(* ------------------------------------------------------------------ *)
(** ** Sums and means of windows *)

Lemma fold_Qplus_nonneg (l : list Q) (a : Q) :
  0 <= a -> Forall (fun d => 0 <= d) l -> 0 <= fold_left Qplus l a.
Proof.
  revert a. induction l as [|x l IH]; intros a Ha Hl; [exact Ha|].
  inversion Hl as [|x' l' Hx Hl']; subst. cbn [fold_left]. apply IH; [|exact Hl'].
  replace 0 with (0 + 0) by reflexivity. now apply Qplus_le_compat.
Qed.

Lemma fold_Qplus_const (c : Q) (l : list Q) (a : Q) :
  Forall (fun d => d == c) l ->
  fold_left Qplus l a == a + inject_Z (Z.of_nat (length l)) * c.
Proof.
  revert a. induction l as [|x l IH]; intros a Hl.
  - cbn. ring.
  - inversion Hl as [|x' l' Hx Hl']; subst. cbn [fold_left length].
    rewrite IH by exact Hl'. rewrite Nat2Z.inj_succ. unfold Z.succ.
    rewrite inject_Z_plus, Hx. ring.
Qed.

Lemma Forall_lastn {A} (P : A -> Prop) (n : nat) (l : list A) :
  Forall P l -> Forall P (lastn n l).
Proof.
  intros H. unfold lastn. rewrite <- (firstn_skipn (length l - n) l) in H.
  apply Forall_app in H. apply H.
Qed.

Lemma inject_nat_pos (n : nat) : (1 <= n)%nat -> 0 < inject_Z (Z.of_nat n).
Proof.
  intros H. change 0 with (inject_Z 0). rewrite <- Zlt_Qlt. lia.
Qed.

Lemma mean_nonneg (l : list Q) :
  (1 <= length l)%nat -> Forall (fun d => 0 <= d) l -> 0 <= mean l.
Proof.
  intros Hn Hl. unfold mean, sum.
  apply Qle_shift_div_l; [now apply inject_nat_pos|].
  rewrite Qmult_0_l. apply fold_Qplus_nonneg; [apply Qle_refl|exact Hl].
Qed.

Lemma run_velocity (s : Velocity.state) (ys : list Q) :
  ys <> [] ->
  Velocity.scrollVelocity (Velocity.run s ys)
  = mean (Velocity.velocityHistory (Velocity.run s ys)).
Proof.
  intros H. destruct (exists_last H) as [ys' [y ->]].
  rewrite run_snoc. apply sample_velocity.
Qed.

(** C10.  Every sample divides by the length of the history as it stands
    after the push (and the possible shift): that history is never empty, so
    the divisor is a positive count; every retained entry is an absolute
    value, so the published velocity is non-negative. *)
Theorem sample_division_safe :
  forall (y0 : Q) (ys : list Q) (y : Q),
    let s0 := Velocity.run (Velocity.init y0) ys in
    let s := Velocity.sample y s0 in
    (forall (s' : Velocity.state) (y' : Q),
        (1 <= length (Velocity.pushShift (Velocity.velocityHistory s')
                        (Velocity.instantVelocity y' s')))%nat)
    /\ (1 <= length (Velocity.velocityHistory s))%nat
    /\ 0 < inject_Z (Z.of_nat (length (Velocity.velocityHistory s)))
    /\ Forall (fun d => 0 <= d) (Velocity.velocityHistory s)
    /\ Velocity.scrollVelocity s
       = sum (Velocity.velocityHistory s)
         / inject_Z (Z.of_nat (length (Velocity.velocityHistory s)))
    /\ 0 <= Velocity.scrollVelocity s.
Proof.
  intros y0 ys y s0 s.
  assert (Hne : (1 <= length (Velocity.velocityHistory s))%nat)
    by apply pushShift_nonempty.
  assert (Hpos : Forall (fun d => 0 <= d) (Velocity.velocityHistory s)).
  { unfold s, s0. rewrite <- run_snoc, run_history by (simpl; lia).
    apply Forall_lastn. cbn [Velocity.init Velocity.velocityHistory
                             Velocity.lastScrollY app].
    apply deltas_nonneg. }
  split; [intros s' y'; apply pushShift_nonempty|].
  split; [exact Hne|].
  split; [now apply inject_nat_pos|].
  split; [exact Hpos|].
  split; [reflexivity|].
  unfold s. rewrite sample_velocity. now apply mean_nonneg.
Qed.

(** C7.  After any earlier samples, once at least five consecutive samples
    (six in particular) have all had delta 10, the published velocity is
    exactly 10. *)
Theorem velocity_constant_deltas :
  forall (y0 : Q) (pre ys : list Q),
    (5 <= length ys)%nat ->
    Forall (fun d => d == 10) (Velocity.deltas (last pre y0) ys) ->
    Velocity.scrollVelocity (Velocity.run (Velocity.init y0) (pre ++ ys)) == 10.
Proof.
  intros y0 pre ys Hlen Hds.
  rewrite run_app.
  set (s1 := Velocity.run (Velocity.init y0) pre).
  assert (H1 : (length (Velocity.velocityHistory s1) <= 5)%nat)
    by (apply run_history_length; simpl; lia).
  assert (HL : Velocity.lastScrollY s1 = last pre y0)
    by (unfold s1; now rewrite run_lastScrollY).
  rewrite run_velocity by (destruct ys; [simpl in Hlen; lia|discriminate]).
  rewrite run_history by exact H1. rewrite HL.
  rewrite lastn_app_full by (rewrite deltas_length; exact Hlen).
  unfold mean, sum.
  rewrite (fold_Qplus_const 10) by (now apply Forall_lastn).
  rewrite lastn_length, deltas_length.
  replace (Nat.min 5 (length ys)) with 5%nat by lia.
  reflexivity.
Qed.

Lemma velocity_constant_deltas_witness :
  Velocity.scrollVelocity
    (Velocity.run (Velocity.init 0) ([3; 100] ++ [110; 120; 130; 140; 150; 160]))
  == 10.
Proof.
  apply (velocity_constant_deltas 0 [3; 100] [110; 120; 130; 140; 150; 160]).
  - simpl; lia.
  - repeat constructor.
Defined.

(** C8.  The estimate is created with [lastScrollY] equal to the scroll
    offset at binding time, so a first sample taken while the page is still
    at that offset has delta 0 and publishes velocity 0; in the first
    revision this is what a scroll event followed by an animation frame
    produces. *)
Theorem first_sample_no_spike :
  forall (S0 : Q) (t0 t t' : Z),
    (t0 <= t)%Z -> (t <= t')%Z ->
    Velocity.lastScrollY (Velocity.init S0) = S0
    /\ Velocity.instantVelocity S0 (Velocity.init S0) == 0
    /\ Velocity.velocityHistory (Velocity.sample S0 (Velocity.init S0))
       = [Velocity.instantVelocity S0 (Velocity.init S0)]
    /\ Velocity.scrollVelocity (Velocity.sample S0 (Velocity.init S0)) == 0
    /\ Velocity.scrollVelocity (SchedV2.scrollListener S0 (Velocity.init S0)) == 0
    /\ exists w,
         Sched.exec (Sched.init t0 S0) [Sched.Scroll t S0; Sched.Frame t'] = Some w
         /\ Sched.vel w = Velocity.sample S0 (Velocity.init S0)
         /\ Sched.sampled w = 1%nat.
Proof.
  intros S0 t0 t t' Ht Ht'.
  assert (Hd : Velocity.instantVelocity S0 (Velocity.init S0) == 0).
  { unfold Velocity.instantVelocity. cbn [Velocity.init Velocity.lastScrollY].
    setoid_replace (S0 - S0) with 0 by ring. reflexivity. }
  assert (Hv : Velocity.scrollVelocity (Velocity.sample S0 (Velocity.init S0)) == 0).
  { cbn [Velocity.sample Velocity.scrollVelocity Velocity.init
         Velocity.velocityHistory Velocity.pushShift app length Nat.ltb Nat.leb tl].
    unfold sum. cbn [fold_left length]. rewrite Hd. reflexivity. }
  repeat split; try assumption.
  cbn [Sched.exec]. unfold Sched.step.
  cbn [Sched.time Sched.init Sched.now].
  destruct (Z.ltb_spec t t0) as [?|_]; [lia|].
  cbn. destruct (Z.ltb_spec t' t) as [?|_]; [lia|].
  eexists. split; [reflexivity|]. split; reflexivity.
Qed.

Lemma first_sample_no_spike_witness :
  Velocity.scrollVelocity (Velocity.sample 240 (Velocity.init 240)) == 0
  /\ exists w,
       Sched.exec (Sched.init 0 240) [Sched.Scroll 5 240; Sched.Frame 16] = Some w
       /\ Sched.vel w = Velocity.sample 240 (Velocity.init 240)
       /\ Sched.sampled w = 1%nat.
Proof.
  destruct (first_sample_no_spike 240 0 5 16) as [_ [_ [_ [Hv [_ Hw]]]]].
  - lia.
  - lia.
  - split; [exact Hv|exact Hw].
Defined.

(* ------------------------------------------------------------------ *)
(** ** The throttled, frame-coalesced sampler *)

Lemma sched_inv_init (t0 : Z) (y0 : Q) : sched_inv (Sched.init t0 y0).
Proof. split; reflexivity. Qed.

Lemma sched_inv_step (w w' : Sched.world) (ev : Sched.event) :
  sched_inv w -> Sched.step w ev = Some w' -> sched_inv w'.
Proof.
  intros [Hf Ht]. unfold Sched.step.
  destruct (Sched.time ev <? Sched.now w)%Z; [discriminate|].
  destruct ev as [t y|t|t].
  - intros [= <-].
    unfold Sched.scrollListener, Sched.throttle, Sched.handleScroll, sched_inv.
    cbn. destruct (Sched.inThrottle w) eqn:Ei; cbn.
    + rewrite Ei. split; assumption.
    + destruct (Sched.ticking w) eqn:Ek; cbn; rewrite Ht; cbn.
      * rewrite Ek. split; [assumption|eauto].
      * rewrite Hf. split; [reflexivity|eauto].
  - intros [= <-]. rewrite Hf. unfold sched_inv.
    destruct (Sched.ticking w) eqn:Ek; cbn; rewrite ?Ek;
      (split; [reflexivity|assumption]).
  - destruct (Sched.timers w) as [|d rest] eqn:Et; [discriminate|].
    destruct (d <=? t)%Z; [|discriminate].
    intros [= <-]. unfold sched_inv. cbn. split; [assumption|].
    destruct (Sched.inThrottle w).
    + destruct Ht as [d' [= _ ->]]. reflexivity.
    + discriminate.
Qed.

Lemma sched_inv_exec (evs : list Sched.event) (w w' : Sched.world) :
  sched_inv w -> Sched.exec w evs = Some w' -> sched_inv w'.
Proof.
  revert w. induction evs as [|ev r IH]; intros w Hw.
  - now intros [= <-].
  - cbn [Sched.exec]. destruct (Sched.step w ev) as [w1|] eqn:E; [|discriminate].
    apply IH. eapply sched_inv_step; eassumption.
Qed.

Lemma iter_updateVelocity_now (n : nat) (w : Sched.world) :
  Sched.now (Nat.iter n Sched.updateVelocity w) = Sched.now w.
Proof.
  induction n as [|n IH]; [reflexivity|].
  change (Nat.iter (S n) Sched.updateVelocity w)
    with (Sched.updateVelocity (Nat.iter n Sched.updateVelocity w)).
  exact IH.
Qed.

Lemma step_now (w w' : Sched.world) (ev : Sched.event) :
  Sched.step w ev = Some w' ->
  Sched.now w' = Sched.time ev /\ (Sched.now w <= Sched.time ev)%Z.
Proof.
  unfold Sched.step.
  destruct (Z.ltb_spec (Sched.time ev) (Sched.now w)) as [|Hle]; [discriminate|].
  destruct ev as [t y|t|t].
  - intros [= <-]. split; [|exact Hle].
    unfold Sched.scrollListener, Sched.throttle, Sched.handleScroll. cbn.
    destruct (Sched.inThrottle w); [reflexivity|].
    destruct (Sched.ticking w); reflexivity.
  - intros [= <-]. split; [|exact Hle]. now rewrite iter_updateVelocity_now.
  - destruct (Sched.timers w) as [|d rest]; [discriminate|].
    destruct (d <=? t)%Z; [|discriminate].
    intros [= <-]. split; [reflexivity|exact Hle].
Qed.

Lemma iter_updateVelocity_frame (n : nat) (w : Sched.world) :
  let w' := Nat.iter n Sched.updateVelocity w in
  Sched.inThrottle w' = Sched.inThrottle w
  /\ Sched.timers w' = Sched.timers w
  /\ Sched.requested w' = Sched.requested w
  /\ Sched.frameCallbacks w' = Sched.frameCallbacks w.
Proof.
  induction n as [|n IH]; [now repeat split|].
  change (Nat.iter (S n) Sched.updateVelocity w)
    with (Sched.updateVelocity (Nat.iter n Sched.updateVelocity w)).
  exact IH.
Qed.

Lemma in_window_step (t : Z) (r : nat) (w w' : Sched.world) (ev : Sched.event) :
  in_window t r w -> (Sched.time ev < t + 50)%Z ->
  Sched.step w ev = Some w' -> in_window t r w'.
Proof.
  intros [Hi [Ht Hr]] Hlt. unfold Sched.step.
  destruct (Sched.time ev <? Sched.now w)%Z; [discriminate|].
  destruct ev as [t1 y|t1|t1].
  - intros [= <-]. unfold Sched.scrollListener, Sched.throttle. cbn.
    rewrite Hi. repeat split; assumption.
  - intros [= <-].
    destruct (iter_updateVelocity_frame (Sched.frameCallbacks w)
                (Sched.clear_frameCallbacks (Sched.at_time t1 w)))
      as [H1 [H2 [H3 _]]].
    unfold in_window. rewrite H1, H2, H3. repeat split; assumption.
  - rewrite Ht. cbn in Hlt.
    destruct (Z.leb_spec (t + 50) t1) as [?|_]; [lia|discriminate].
Qed.

Lemma exec_now (evs : list Sched.event) (w w' : Sched.world) :
  Sched.exec w evs = Some w' ->
  (Sched.now w <= Sched.now w')%Z
  /\ Forall (fun ev => (Sched.time ev <= Sched.now w')%Z) evs.
Proof.
  revert w. induction evs as [|ev r IH]; intros w.
  - intros [= <-]. split; [lia|constructor].
  - cbn [Sched.exec]. destruct (Sched.step w ev) as [w1|] eqn:E; [|discriminate].
    intros H. destruct (IH _ H) as [Hn Hall].
    destruct (step_now _ _ _ E) as [H1 H2].
    split; [lia|]. constructor; [lia|exact Hall].
Qed.

Lemma in_window_exec (t : Z) (r : nat) (evs : list Sched.event)
      (w w' : Sched.world) :
  in_window t r w -> Forall (fun ev => (Sched.time ev < t + 50)%Z) evs ->
  Sched.exec w evs = Some w' -> in_window t r w'.
Proof.
  revert w. induction evs as [|ev l IH]; intros w Hw Hall.
  - now intros [= <-].
  - inversion Hall as [|ev' l' Hev Hl]; subst.
    cbn [Sched.exec]. destruct (Sched.step w ev) as [w1|] eqn:E; [|discriminate].
    apply IH; [|exact Hl]. eapply in_window_step; eassumption.
Qed.

(** The leading scroll event of a window: [handleScroll] runs at once. *)
Lemma leading_scroll (w w1 : Sched.world) (t : Z) (y : Q) :
  sched_inv w -> Sched.inThrottle w = false ->
  Sched.step w (Sched.Scroll t y) = Some w1 ->
  in_window t (Sched.requested w1) w1
  /\ Sched.requested w1
     = (Sched.requested w + (if Sched.ticking w then 0 else 1))%nat
  /\ Sched.ticking w1 = true
  /\ Sched.frameCallbacks w1 = 1%nat.
Proof.
  intros [Hf Ht] Hi. rewrite Hi in Ht. unfold Sched.step.
  destruct (Sched.time (Sched.Scroll t y) <? Sched.now w)%Z; [discriminate|].
  intros [= <-].
  unfold Sched.scrollListener, Sched.throttle, Sched.handleScroll, in_window.
  cbn. rewrite Hi. destruct (Sched.ticking w) eqn:Ek; cbn; rewrite Ht, ?Hf; cbn.
  - rewrite Ek. repeat split; lia.
  - repeat split; lia.
Qed.

Lemma frame_step (w : Sched.world) (t : Z) :
  sched_inv w -> (Sched.now w <= t)%Z ->
  exists w', Sched.step w (Sched.Frame t) = Some w'
             /\ Sched.sampled w' = (Sched.frameCallbacks w + Sched.sampled w)%nat
             /\ Sched.frameCallbacks w' = 0%nat
             /\ Sched.ticking w' = false.
Proof.
  intros [Hf _] Hle. unfold Sched.step. cbn [Sched.time].
  destruct (Z.ltb_spec t (Sched.now w)) as [?|_]; [lia|].
  eexists. split; [reflexivity|].
  rewrite Hf. destruct (Sched.ticking w) eqn:Ek; cbn; rewrite ?Ek; now repeat split.
Qed.

(** C2.  In every state the event loop of the first revision reaches, at
    most one frame callback is pending, so an animation frame performs at
    most one sample.  When a scroll event opens a throttle window (the
    throttle is idle), [handleScroll] runs at once and a frame sample is
    pending afterwards (newly requested unless one was already pending); a
    second scroll event 10ms later, whatever the browser delivered in
    between, is dropped: it requests no frame and changes nothing but the
    browser's own clock and scroll offset. *)
Theorem scroll_sampler_rate_limited :
  forall (t0 : Z) (y0 : Q) (evs : list Sched.event) (w : Sched.world),
    Sched.exec (Sched.init t0 y0) evs = Some w ->
    (Sched.frameCallbacks w <= 1)%nat
    /\ (forall tf, (Sched.now w <= tf)%Z ->
          exists wf, Sched.step w (Sched.Frame tf) = Some wf
                     /\ (Sched.sampled wf <= Sched.sampled w + 1)%nat
                     /\ Sched.frameCallbacks wf = 0%nat)
    /\ (forall t y1 y2 mid w1 w2 w3,
          Sched.inThrottle w = false ->
          Sched.step w (Sched.Scroll t y1) = Some w1 ->
          Sched.exec w1 mid = Some w2 ->
          Sched.step w2 (Sched.Scroll (t + 10) y2) = Some w3 ->
          Sched.requested w1
          = (Sched.requested w + (if Sched.ticking w then 0 else 1))%nat
          /\ Sched.frameCallbacks w1 = 1%nat
          /\ Sched.requested w2 = Sched.requested w1
          /\ w3 = Sched.scrolled_to y2 (Sched.at_time (t + 10) w2)
          /\ Sched.requested w3 = Sched.requested w1
          /\ (Sched.requested w3 <= Sched.requested w + 1)%nat).
Proof.
  intros t0 y0 evs w Hreach.
  assert (Hinv : sched_inv w)
    by (eapply sched_inv_exec; [apply sched_inv_init|exact Hreach]).
  split; [|split].
  - destruct Hinv as [Hf _]. rewrite Hf. destruct (Sched.ticking w); lia.
  - intros tf Htf. destruct (frame_step w tf Hinv Htf) as [wf [Hs [Hn [Hc _]]]].
    exists wf. split; [exact Hs|]. split; [|exact Hc].
    destruct Hinv as [Hf _]. rewrite Hn, Hf. destruct (Sched.ticking w); lia.
  - intros t y1 y2 mid w1 w2 w3 Hidle H1 H2 H3.
    destruct (leading_scroll _ _ _ _ Hinv Hidle H1) as [Hw1 [Hr1 [_ Hc1]]].
    destruct (exec_now _ _ _ H2) as [_ Hmid].
    destruct (step_now _ _ _ H3) as [_ Hlast]. cbn [Sched.time] in Hlast.
    assert (Hw2 : in_window t (Sched.requested w1) w2).
    { eapply in_window_exec; [exact Hw1| |exact H2].
      eapply Forall_impl; [|exact Hmid]. cbn beta. intros ev Hev. lia. }
    destruct Hw2 as [Hi2 [_ Hr2]].
    assert (E3 : w3 = Sched.scrolled_to y2 (Sched.at_time (t + 10) w2)).
    { revert H3. unfold Sched.step.
      destruct (Sched.time (Sched.Scroll (t + 10) y2) <? Sched.now w2)%Z;
        [discriminate|].
      unfold Sched.scrollListener, Sched.throttle. cbn. rewrite Hi2.
      now intros [= <-]. }
    assert (Hr3 : Sched.requested w3 = Sched.requested w1)
      by (rewrite E3; exact Hr2).
    repeat split; try assumption.
    rewrite Hr3, Hr1. destruct (Sched.ticking w); lia.
Qed.

Lemma scroll_sampler_rate_limited_witness :
  exists w3,
    Sched.exec (Sched.init 0 0)
      [Sched.Scroll 100 30; Sched.Frame 104; Sched.Scroll 110 45] = Some w3
    /\ Sched.requested w3 = 1%nat
    /\ (Sched.frameCallbacks (Sched.init 0 0) <= 1)%nat.
Proof.
  destruct (scroll_sampler_rate_limited 0%Z 0 [] (Sched.init 0 0) eq_refl)
    as [Hq [_ H]].
  eexists. split; [reflexivity|]. split; [|exact Hq].
  destruct (H 100%Z 30 45 [Sched.Frame 104] _ _ _ eq_refl eq_refl eq_refl eq_refl)
    as [Hr1 [_ [_ [_ [Hr3 _]]]]].
  etransitivity; [exact Hr3|]. etransitivity; [exact Hr1|]. reflexivity.
Defined.

(* ------------------------------------------------------------------ *)
(** ** Traces with exceptions *)

Lemma andThen_ret_l (m : M) : ret ;; m = m.
Proof. destruct m; reflexivity. Qed.

Lemma andThen_ret_r (m : M) : m ;; ret = m.
Proof.
  destruct m as [t [|err]]; [|reflexivity].
  unfold andThen, ret. cbn. now rewrite app_nil_r.
Qed.

Lemma andThen_assoc (a b c : M) : (a ;; b) ;; c = a ;; (b ;; c).
Proof.
  destruct a as [ta [|ea]]; [|reflexivity].
  destruct b as [tb [|eb]]; [|reflexivity].
  destruct c as [tc oc]. unfold andThen. cbn. now rewrite app_assoc.
Qed.

Lemma cut_quiet (l : list effect) : cut (fun _ => false) l = (l, Normal).
Proof.
  induction l as [|x l IH]; [reflexivity|].
  destruct x; cbn [cut]; rewrite IH; reflexivity.
Qed.

Lemma cut_app (th : call -> bool) (l1 l2 : list effect) :
  cut th (l1 ++ l2) = cut th l1 ;; cut th l2.
Proof.
  induction l1 as [|x l1 IH]; [now rewrite andThen_ret_l|].
  destruct x as [c|msg|msg err]; cbn [cut app].
  - destruct (th c); [reflexivity|]. now rewrite IH, andThen_assoc.
  - now rewrite IH, andThen_assoc.
  - now rewrite IH, andThen_assoc.
Qed.

(** A stopped replay splits the failure-free trace at the call that raised. *)
Lemma cut_thrown (th : call -> bool) (l t : list effect) (err : call) :
  cut th l = (t, Thrown err) ->
  th err = true /\ exists rest, l = t ++ Did err :: rest.
Proof.
  revert t. induction l as [|x l IH]; intros t; [discriminate|].
  destruct x as [c|msg|msg e']; cbn [cut].
  - destruct (th c) eqn:Ec.
    + intros [= <- <-]. split; [exact Ec|]. now exists l.
    + destruct (cut th l) as [t' [|e2]] eqn:El; cbn; [discriminate|].
      intros [= <- <-]. destruct (IH _ eq_refl) as [H [rest ->]].
      split; [exact H|]. now exists rest.
  - destruct (cut th l) as [t' [|e2]] eqn:El; cbn; [discriminate|].
    intros [= <- <-]. destruct (IH _ eq_refl) as [H [rest ->]].
    split; [exact H|]. now exists rest.
  - destruct (cut th l) as [t' [|e2]] eqn:El; cbn; [discriminate|].
    intros [= <- <-]. destruct (IH _ eq_refl) as [H [rest ->]].
    split; [exact H|]. now exists rest.
Qed.

Lemma cut_normal (th : call -> bool) (l t : list effect) :
  cut th l = (t, Normal) -> t = l.
Proof.
  revert t. induction l as [|x l IH]; intros t; [now intros [= <-]|].
  destruct x as [c|msg|msg e']; cbn [cut].
  - destruct (th c); [discriminate|].
    destruct (cut th l) as [t' [|e2]]; cbn; [|discriminate].
    intros [= <-]. now rewrite (IH _ eq_refl).
  - destruct (cut th l) as [t' [|e2]]; cbn; [|discriminate].
    intros [= <-]. now rewrite (IH _ eq_refl).
  - destruct (cut th l) as [t' [|e2]]; cbn; [|discriminate].
    intros [= <-]. now rewrite (IH _ eq_refl).
Qed.

Lemma agrees_ret (th : call -> bool) : agrees th ret ret.
Proof. split; reflexivity. Qed.

Lemma agrees_perform (e : env) (c : call) :
  agrees (throws e) (perform e c) (perform (quiet e) c).
Proof.
  split; [reflexivity|]. unfold perform. cbn.
  destruct (throws e c); reflexivity.
Qed.

Lemma agrees_andThen (th : call -> bool) (m1 m1' m2 m2' : M) :
  agrees th m1 m1' -> agrees th m2 m2' -> agrees th (m1 ;; m2) (m1' ;; m2').
Proof.
  intros [H1 E1] [H2 E2]. destruct m1' as [t1 o1]. cbn in H1. subst o1.
  split; [exact H2|]. cbn. now rewrite cut_app, E1, E2.
Qed.

Lemma agrees_forEachFrom {A} (th : call -> bool) (l : list A)
      (f f' : A -> nat -> M) (i : nat) :
  (forall a j, agrees th (f a j) (f' a j)) ->
  agrees th (forEachFrom i l f) (forEachFrom i l f').
Proof.
  intros Hf. revert i. induction l as [|a l IH]; intros i; cbn [forEachFrom].
  - apply agrees_ret.
  - apply agrees_andThen; [apply Hf|apply IH].
Qed.

Lemma agrees_forEach {A} (th : call -> bool) (l : list A)
      (f f' : A -> nat -> M) :
  (forall a j, agrees th (f a j) (f' a j)) ->
  agrees th (forEach l f) (forEach l f').
Proof. apply agrees_forEachFrom. Qed.

Create HintDb agree.
#[local] Hint Resolve agrees_ret agrees_perform agrees_andThen : agree.

Ltac agree :=
  repeat first
    [ apply agrees_andThen
    | apply agrees_perform
    | apply agrees_ret
    | apply agrees_forEach; intros ].

Lemma imageFocusTransition_agrees (e : env) :
  agrees (throws e) (imageFocusTransition e) (imageFocusTransition (quiet e)).
Proof. unfold imageFocusTransition. agree. Qed.

Lemma velocityElements_agrees (e : env) :
  agrees (throws e) (velocityElements e) (velocityElements (quiet e)).
Proof. unfold velocityElements. agree. Qed.

Lemma pinnedSectionMicroMovements_agrees (e : env) :
  agrees (throws e) (pinnedSectionMicroMovements e)
         (pinnedSectionMicroMovements (quiet e)).
Proof. unfold pinnedSectionMicroMovements. agree. Qed.

Lemma subtlePerspectiveDepth_agrees (e : env) :
  agrees (throws e) (subtlePerspectiveDepth e) (subtlePerspectiveDepth (quiet e)).
Proof. unfold subtlePerspectiveDepth. agree. Qed.

Lemma magneticHoverEffect_agrees (e : env) :
  agrees (throws e) (magneticHoverEffect e) (magneticHoverEffect (quiet e)).
Proof. unfold magneticHoverEffect. agree. Qed.

Lemma aboutImages_agrees (e : env) :
  agrees (throws e) (aboutImages e) (aboutImages (quiet e)).
Proof. unfold aboutImages. agree. Qed.

#[local] Hint Resolve imageFocusTransition_agrees velocityElements_agrees
  pinnedSectionMicroMovements_agrees subtlePerspectiveDepth_agrees
  magneticHoverEffect_agrees aboutImages_agrees : agree.

Lemma V1_optimizeTouchEvents_agrees (e : env) :
  agrees (throws e) (V1.optimizeTouchEvents e) (V1.optimizeTouchEvents (quiet e)).
Proof. unfold V1.optimizeTouchEvents. agree. Qed.

Lemma V1_multiLayerParallax_agrees (e : env) :
  agrees (throws e) (V1.multiLayerParallax e) (V1.multiLayerParallax (quiet e)).
Proof.
  unfold V1.multiLayerParallax.
  change (querySelector (quiet e)) with (querySelector e).
  change (isMobile (quiet e)) with (isMobile e).
  destruct (querySelector e ".cs_hero") as [hero|]; [|apply agrees_ret].
  destruct (isMobile e); [apply agrees_perform|].
  apply agrees_andThen; [|apply aboutImages_agrees].
  apply agrees_forEach. intros layer j. cbn [andb].
  destruct (querySelector e (V1.element layer)); agree.
Qed.

Lemma V1_scrollVelocityParallax_agrees (e : env) :
  agrees (throws e) (V1.scrollVelocityParallax e)
         (V1.scrollVelocityParallax (quiet e)).
Proof.
  unfold V1.scrollVelocityParallax.
  change (isMobile (quiet e)) with (isMobile e).
  destruct (isMobile e); auto with agree.
Qed.

Lemma V1_registrationPass_agrees (e : env) :
  agrees (throws e) (V1.registrationPass e) (V1.registrationPass (quiet e)).
Proof.
  unfold V1.registrationPass.
  change (isMobile (quiet e)) with (isMobile e).
  pose proof (V1_multiLayerParallax_agrees e).
  pose proof (V1_scrollVelocityParallax_agrees e).
  pose proof (V1_optimizeTouchEvents_agrees e).
  destruct (isMobile e); cbn [negb]; auto 10 with agree.
Qed.

Lemma V2_multiLayerParallax_agrees (e : env) :
  agrees (throws e) (V2.multiLayerParallax e) (V2.multiLayerParallax (quiet e)).
Proof.
  unfold V2.multiLayerParallax.
  change (querySelector (quiet e)) with (querySelector e).
  destruct (querySelector e ".cs_hero") as [hero|]; [|apply agrees_ret].
  apply agrees_andThen; [|apply aboutImages_agrees].
  apply agrees_forEach. intros layer j.
  destruct (querySelector e (V2.element layer)); agree.
Qed.

Lemma V2_registrationPass_agrees (e : env) :
  agrees (throws e) (V2.registrationPass e) (V2.registrationPass (quiet e)).
Proof.
  unfold V2.registrationPass, V2.scrollVelocityParallax.
  pose proof (V2_multiLayerParallax_agrees e).
  auto 10 with agree.
Qed.

(** What the guard makes of a registration pass that agrees with its
    failure-free run. *)
Lemma tryCatch_agrees (th : call -> bool) (m m0 : M) (msg : string) :
  agrees th m m0 ->
  snd (tryCatch m msg) = Normal
  /\ match m with
     | (t, Thrown err) =>
         tryCatch m msg = (t ++ [ConsoleError msg err], Normal)
         /\ bindings (fst (tryCatch m msg)) = bindings t
         /\ th err = true
         /\ exists rest, fst m0 = t ++ Did err :: rest
     | (t, Normal) =>
         tryCatch m msg = (t, Normal) /\ t = fst m0
     end.
Proof.
  intros [H0 E]. destruct m as [t [|err]]; cbn.
  - split; [reflexivity|]. split; [reflexivity|].
    symmetry in E. now apply cut_normal in E.
  - split; [reflexivity|]. split; [reflexivity|].
    symmetry in E. apply cut_thrown in E. destruct E as [Hth Hrest].
    split; [|split; assumption].
    clear. induction t as [|x t IH]; [reflexivity|].
    destruct x; cbn [app bindings]; now rewrite IH.
Qed.

(** C5.  In both revisions [initPremiumAnimations] never lets an exception
    out.  When a call of the registration pass raises, the guard logs the
    error and nothing else: the trace is what was registered before the
    failing call (those bindings are kept) followed by the error message,
    and the calls that the failure-free pass would have made after the
    failing one are not made. *)
Theorem registration_guard :
  forall e : env,
    (snd (V1.initPremiumAnimations e) = Normal
     /\ match V1.registrationPass e with
        | (t, Thrown err) =>
            V1.initPremiumAnimations e
            = (t ++ [ConsoleError errorMessage err], Normal)
            /\ bindings (fst (V1.initPremiumAnimations e)) = bindings t
            /\ throws e err = true
            /\ exists rest,
                 fst (V1.registrationPass (quiet e)) = t ++ Did err :: rest
        | (t, Normal) =>
            V1.initPremiumAnimations e = (t, Normal)
            /\ t = fst (V1.registrationPass (quiet e))
        end)
    /\ (snd (V2.initPremiumAnimations e) = Normal
        /\ match V2.registrationPass e with
           | (t, Thrown err) =>
               V2.initPremiumAnimations e
               = (t ++ [ConsoleError errorMessage err], Normal)
               /\ bindings (fst (V2.initPremiumAnimations e)) = bindings t
               /\ throws e err = true
               /\ exists rest,
                    fst (V2.registrationPass (quiet e)) = t ++ Did err :: rest
           | (t, Normal) =>
               V2.initPremiumAnimations e = (t, Normal)
               /\ t = fst (V2.registrationPass (quiet e))
           end).
Proof.
  intros e. split.
  - apply (tryCatch_agrees (throws e) _ _ errorMessage
             (V1_registrationPass_agrees e)).
  - apply (tryCatch_agrees (throws e) _ _ errorMessage
             (V2_registrationPass_agrees e)).
Qed.

(** On the sample desktop page where registering the scroll listener raises:
    the parallax layer registered before it is kept, the error is logged,
    nothing after it runs. *)
Example registration_guard_failing :
  V1.initPremiumAnimations failingEnv
  = ([Did (GsapTo 2%nat
             [("yPercent", VNum (-30 * 0.3)); ("ease", VStr "power1.inOut");
              ("scrollTrigger",
               VObj [("trigger", VElem 1%nat); ("start", VStr "top top");
                     ("end", VStr "bottom top"); ("scrub", VNum 2.5);
                     ("invalidateOnRefresh", VBool true);
                     ("onUpdate", VFun ParallaxOnUpdate)])]);
      ConsoleError errorMessage
        (AddEventListener Window "scroll" OnScroll [("passive", VBool true)])],
     Normal).
Proof. reflexivity. Qed.

(* ------------------------------------------------------------------ *)
(** ** The capability gate *)

(** C3.  When the animation library is undefined or reduced motion is
    preferred, loading the page with either revision of the controller
    leaves exactly one log message: no listener and no binding is
    registered (the script returns before any registration), and no
    exception reaches the page. *)
Theorem gate_registers_nothing :
  forall e : env,
    gsapDefined e = false \/ prefersReducedMotion e = true ->
    V1.main e = ([ConsoleLog disabledMessage], Normal)
    /\ V2.main e = ([ConsoleLog disabledMessage], Normal)
    /\ pageLoad V1.main V1.initPremiumAnimations e
       = ([ConsoleLog disabledMessage], Normal)
    /\ pageLoad V2.main V2.initPremiumAnimations e
       = ([ConsoleLog disabledMessage], Normal)
    /\ bindings (fst (pageLoad V1.main V1.initPremiumAnimations e)) = []
    /\ bindings (fst (pageLoad V2.main V2.initPremiumAnimations e)) = [].
Proof.
  intros e H.
  assert (G : negb (gsapDefined e) || prefersReducedMotion e = true).
  { destruct H as [-> | ->]; [reflexivity|apply orb_true_r]. }
  assert (E1 : V1.main e = ([ConsoleLog disabledMessage], Normal))
    by (unfold V1.main; now rewrite G).
  assert (E2 : V2.main e = ([ConsoleLog disabledMessage], Normal))
    by (unfold V2.main; now rewrite G).
  unfold pageLoad. rewrite E1, E2. cbn. now repeat split.
Qed.

Lemma gate_registers_nothing_witness :
  pageLoad V1.main V1.initPremiumAnimations noGsapEnv
  = ([ConsoleLog disabledMessage], Normal)
  /\ pageLoad V2.main V2.initPremiumAnimations
       (withReducedMotion true desktopEnv)
     = ([ConsoleLog disabledMessage], Normal).
Proof.
  split.
  - apply (gate_registers_nothing noGsapEnv). left. reflexivity.
  - apply (gate_registers_nothing (withReducedMotion true desktopEnv)).
    right. reflexivity.
Defined.

(* ------------------------------------------------------------------ *)
(** ** Which bindings are registered *)

Lemma agrees_quiet_normal (th : call -> bool) (m m0 : M) :
  agrees th m m0 -> snd m0 = Normal.
Proof. now intros [H _]. Qed.

Lemma fst_andThen (a b : M) :
  snd a = Normal -> fst (a ;; b) = fst a ++ fst b.
Proof. destruct a as [t o]. cbn. now intros ->. Qed.

Lemma snd_andThen (a b : M) :
  snd a = Normal -> snd b = Normal -> snd (a ;; b) = Normal.
Proof. destruct a as [t o]. cbn. now intros ->. Qed.

Lemma bindings_app (a b : list effect) :
  bindings (a ++ b) = bindings a ++ bindings b.
Proof.
  induction a as [|x a IH]; [reflexivity|].
  destruct x; cbn [app bindings]; now rewrite IH.
Qed.

Lemma fadeFree_ret : fadeFree ret.
Proof. reflexivity. Qed.

Lemma fadeFree_andThen (a b : M) : fadeFree a -> fadeFree b -> fadeFree (a ;; b).
Proof.
  unfold fadeFree. destruct a as [t [|err]]; cbn; [|tauto].
  intros Ha Hb. now rewrite bindings_app, existsb_app, Ha, Hb.
Qed.

Lemma fadeFree_perform (e : env) (c : call) :
  isFadeIn c = false -> fadeFree (perform e c).
Proof.
  intros H. unfold fadeFree, perform. destruct (throws e c); cbn; [reflexivity|].
  now rewrite H.
Qed.

Lemma fadeFree_forEach {A} (l : list A) (f : A -> nat -> M) :
  (forall a j, fadeFree (f a j)) -> fadeFree (forEach l f).
Proof.
  intros Hf. unfold forEach. generalize 0%nat.
  induction l as [|a l IH]; intros i; cbn [forEachFrom].
  - apply fadeFree_ret.
  - apply fadeFree_andThen; [apply Hf|apply IH].
Qed.

Lemma fadeFree_tryCatch (m : M) (msg : string) :
  fadeFree m -> fadeFree (tryCatch m msg).
Proof.
  unfold fadeFree. destruct m as [t [|err]]; cbn; [tauto|].
  intros H. now rewrite bindings_app, existsb_app, H.
Qed.

Ltac fade_free :=
  repeat first
    [ apply fadeFree_andThen
    | apply fadeFree_perform; reflexivity
    | apply fadeFree_ret
    | apply fadeFree_forEach; intros ].

Lemma V1_initPremiumAnimations_fadeFree (e : env) :
  fadeFree (V1.initPremiumAnimations e).
Proof.
  apply fadeFree_tryCatch. unfold V1.registrationPass.
  destruct (isMobile e) eqn:Em; cbn [negb].
  - unfold imageFocusTransition, V1.optimizeTouchEvents. fade_free.
  - unfold V1.multiLayerParallax, V1.scrollVelocityParallax, velocityElements,
      pinnedSectionMicroMovements, subtlePerspectiveDepth, magneticHoverEffect,
      imageFocusTransition, aboutImages.
    rewrite Em. cbn [andb].
    destruct (querySelector e ".cs_hero"); fade_free.
    all: match goal with
         | |- fadeFree (match querySelector ?x ?s with _ => _ end) =>
             destruct (querySelector x s)
         end; fade_free.
Qed.

(** The failure-free run of a registration function ends normally. *)
Lemma quiet_normal (f : env -> M) (e : env) :
  agrees (throws e) (f e) (f (quiet e)) -> snd (f (quiet e)) = Normal.
Proof. apply agrees_quiet_normal. Qed.

(** What [initPremiumAnimations] registers when no call raises.  On a
    runtime classified as mobile the first revision runs the focus
    transition and the touch-event listeners and none of the five heavy
    registration functions; [multiLayerParallax], whose mobile branch holds
    the only [gsap.from] of the script, is among the functions not called,
    so no run performs a [gsap.from].  On every other runtime all six
    registration functions run, as they do on every runtime in the second
    revision. *)
Theorem mobile_reduced_subset :
  forall e : env,
    fst (V1.initPremiumAnimations (quiet e))
    = (if isMobile e
       then fst (imageFocusTransition (quiet e))
            ++ fst (V1.optimizeTouchEvents (quiet e))
       else fst (V1.multiLayerParallax (quiet e))
            ++ fst (V1.scrollVelocityParallax (quiet e))
            ++ fst (pinnedSectionMicroMovements (quiet e))
            ++ fst (subtlePerspectiveDepth (quiet e))
            ++ fst (magneticHoverEffect (quiet e))
            ++ fst (imageFocusTransition (quiet e)))
    /\ existsb isFadeIn (bindings (fst (V1.initPremiumAnimations e))) = false
    /\ fst (V2.initPremiumAnimations (quiet e))
       = fst (V2.multiLayerParallax (quiet e))
         ++ fst (imageFocusTransition (quiet e))
         ++ fst (V2.scrollVelocityParallax (quiet e))
         ++ fst (pinnedSectionMicroMovements (quiet e))
         ++ fst (subtlePerspectiveDepth (quiet e))
         ++ fst (magneticHoverEffect (quiet e)).
Proof.
  intros e.
  pose proof (quiet_normal _ e (V1_multiLayerParallax_agrees e)) as N1.
  pose proof (quiet_normal _ e (V1_scrollVelocityParallax_agrees e)) as N2.
  pose proof (quiet_normal _ e (pinnedSectionMicroMovements_agrees e)) as N3.
  pose proof (quiet_normal _ e (subtlePerspectiveDepth_agrees e)) as N4.
  pose proof (quiet_normal _ e (magneticHoverEffect_agrees e)) as N5.
  pose proof (quiet_normal _ e (imageFocusTransition_agrees e)) as N6.
  pose proof (quiet_normal _ e (V1_optimizeTouchEvents_agrees e)) as N7.
  pose proof (quiet_normal _ e (V2_multiLayerParallax_agrees e)) as N8.
  pose proof (quiet_normal _ e (V1_registrationPass_agrees e)) as N9.
  pose proof (quiet_normal _ e (V2_registrationPass_agrees e)) as N10.
  assert (T : forall m msg, snd m = Normal -> fst (tryCatch m msg) = fst m)
    by (intros [t o] msg; cbn; now intros ->).
  split; [|split].
  - unfold V1.initPremiumAnimations. rewrite T by exact N9.
    unfold V1.registrationPass.
    change (isMobile (quiet e)) with (isMobile e).
    destruct (isMobile e); cbn [negb].
    + rewrite andThen_ret_l. now apply fst_andThen.
    + rewrite andThen_ret_r, !andThen_assoc.
      rewrite !fst_andThen by assumption. reflexivity.
  - apply V1_initPremiumAnimations_fadeFree.
  - unfold V2.initPremiumAnimations. rewrite T by exact N10.
    unfold V2.registrationPass.
    assert (N11 : snd (V2.scrollVelocityParallax (quiet e)) = Normal).
    { unfold V2.scrollVelocityParallax. apply snd_andThen; [reflexivity|].
      exact (quiet_normal _ e (velocityElements_agrees e)). }
    rewrite !fst_andThen by assumption. reflexivity.
Qed.

(** C4.  The single simple fade-in on mobile, evaluated on the code: an
    iPhone loads a page that has a hero section.  The mobile branch of
    [multiLayerParallax] ("Only apply a simple fade-in on mobile") would
    register the fade-in, but [initPremiumAnimations] calls
    [multiLayerParallax] only when the runtime is not mobile, so the page
    load ends normally without registering it, or any [gsap.from]. *)
Lemma mobile_fade_in_not_registered :
  isMobile mobileEnv = true
  /\ querySelector mobileEnv ".cs_hero" = Some 1%nat
  /\ V1.multiLayerParallax mobileEnv = ([Did (V1.heroFadeIn 1%nat)], Normal)
  /\ snd (pageLoad V1.main V1.initPremiumAnimations mobileEnv) = Normal
  /\ ~ In (V1.heroFadeIn 1%nat)
          (bindings (fst (pageLoad V1.main V1.initPremiumAnimations mobileEnv)))
  /\ existsb isFadeIn
       (bindings (fst (pageLoad V1.main V1.initPremiumAnimations mobileEnv)))
     = false.
Proof.
  repeat split.
  intros H. vm_compute in H.
  repeat (destruct H as [H|H]; [discriminate H|]). exact H.
Qed.

(* ------------------------------------------------------------------ *)
(** ** Pointer magnetism *)

(** C6.  On pointer-enter and on pointer-move the tween's target is 0.08
    times the pointer's offset from the button's centre, on each axis (a
    pointer 20 right of and 10 above the centre gives (1.6, -0.8)); on
    pointer-leave the target is (0, 0); the move tween's duration (0.15) is
    strictly shorter than the enter tween's (0.4). *)
Theorem magnetic_displacement :
  forall (button : elem) (r : Magnetic.rect) (ev : Magnetic.mouseEvent),
    let dx := Magnetic.clientX ev - Magnetic.centerX r in
    let dy := Magnetic.clientY ev - Magnetic.centerY r in
    (exists X Y D,
        Magnetic.mouseenter button r ev
        = GsapTo button [("x", VNum X); ("y", VNum Y); ("duration", VNum D);
                         ("ease", VStr "power2.inOut")]
        /\ X == 0.08 * dx /\ Y == 0.08 * dy /\ D == 0.4)
    /\ (exists X Y D,
           Magnetic.mousemove button r ev
           = GsapTo button [("x", VNum X); ("y", VNum Y); ("duration", VNum D);
                            ("ease", VStr "power2.out")]
           /\ X == 0.08 * dx /\ Y == 0.08 * dy /\ D == 0.15)
    /\ Magnetic.mouseleave button
       = GsapTo button [("x", VNum 0); ("y", VNum 0); ("duration", VNum 0.6);
                        ("ease", VStr "power2.inOut")]
    /\ (exists De Dm,
           Magnetic.tweenField "duration" (Magnetic.mouseenter button r ev) = Some De
           /\ Magnetic.tweenField "duration" (Magnetic.mousemove button r ev) = Some Dm
           /\ Dm < De)
    /\ (let at_offset :=
          Magnetic.mkEvent (Magnetic.centerX r + 20) (Magnetic.centerY r - 10) in
        exists X Y,
          Magnetic.tweenField "x" (Magnetic.mouseenter button r at_offset) = Some X
          /\ Magnetic.tweenField "y" (Magnetic.mouseenter button r at_offset) = Some Y
          /\ X == 1.6 /\ Y == -0.8).
Proof.
  intros button r ev dx dy.
  assert (Hx : Magnetic.offsetX r ev * 0.08 == 0.08 * dx)
    by (unfold Magnetic.offsetX, dx, Magnetic.centerX; field).
  assert (Hy : Magnetic.offsetY r ev * 0.08 == 0.08 * dy)
    by (unfold Magnetic.offsetY, dy, Magnetic.centerY; field).
  split; [|split; [|split; [|split]]].
  - do 3 eexists. split; [reflexivity|]. split; [exact Hx|].
    split; [exact Hy|reflexivity].
  - do 3 eexists. split; [reflexivity|]. split; [exact Hx|].
    split; [exact Hy|reflexivity].
  - reflexivity.
  - do 2 eexists. split; [reflexivity|]. split; reflexivity.
  - cbn zeta. do 2 eexists. split; [reflexivity|]. split; [reflexivity|].
    unfold Magnetic.offsetX, Magnetic.offsetY, Magnetic.centerX,
      Magnetic.centerY. cbn [Magnetic.clientX Magnetic.clientY].
    split; field.
Qed.

(** The (20, -10) example in binary64: the products round to the doubles
    nearest 1.6 and -0.8, the values the literals [1.6] and [-0.8] denote. *)
#[warnings="-inexact-float"]
Lemma magnetic_example_binary64 :
  Magnetic.displace64 20%float = 1.6%float
  /\ Magnetic.displace64 (-10)%float = (-0.8)%float.
Proof. split; reflexivity. Qed.

(* ------------------------------------------------------------------ *)
(** ** The mobile override *)

Lemma isMobileUA_examples :
  isMobileUA iPhoneUA = true
  /\ isMobileUA "Mozilla/5.0 (Linux; ANDROID 13; Pixel 7)" = true
  /\ isMobileUA "Opera/9.80 (J2ME/MIDP; opera mini/9.80)" = true
  /\ isMobileUA desktopUA = false
  /\ isMobileUA "" = false.
Proof. repeat split. Qed.

(** C9.  Loading a page carrying the override script: on a runtime
    classified as mobile, and on no other, the style rule is appended that
    forces transition, animation and transform to none, opacity to 1, a flat
    transform-style, visible backfaces and no perspective on every element
    and pseudo-element, touch-action is set to manipulation, and a
    touch-start listener is registered that stops propagation exactly when
    the event starts inside an element flagged scrollable.  The
    reduced-motion preference plays no part. *)
Theorem mobile_override :
  forall e : env,
    bindings (fst (pageLoad MobileOptimize.main MobileOptimize.optimise (quiet e)))
    = (if isMobile e then
         (if String.eqb (readyState e) "loading"
          then [AddEventListener Document "DOMContentLoaded" OnMobileReady []]
          else [])
         ++ [AppendStyle MobileOptimize.overrideStyle;
             SetTouchAction "manipulation";
             AddEventListener Document "touchstart" OnTouchStartScrollable
               [("passive", VBool true)];
             ClassListAdd "no-hover"]
       else [])
    /\ snd (pageLoad MobileOptimize.main MobileOptimize.optimise (quiet e)) = Normal
    /\ (exists rest,
           MobileOptimize.overrideStyle
           = mkRule ["*"; "*:before"; "*:after"]
               [("transition", "none", true); ("animation", "none", true);
                ("transform", "none", true); ("opacity", "1", true);
                ("transform-style", "flat", true);
                ("backface-visibility", "visible", true);
                ("perspective", "none", true)] :: rest)
    /\ (forall el, MobileOptimize.touchstart (Some el) = [StopPropagation])
    /\ MobileOptimize.touchstart None = []
    /\ (forall b,
           pageLoad MobileOptimize.main MobileOptimize.optimise
             (withReducedMotion b e)
           = pageLoad MobileOptimize.main MobileOptimize.optimise e).
Proof.
  intros e. unfold pageLoad, MobileOptimize.main.
  change (isMobile (quiet e)) with (isMobile e).
  change (readyState (quiet e)) with (readyState e).
  split; [|split; [|split; [|split; [|split]]]].
  - destruct (isMobile e); [|reflexivity]. cbn [negb].
    destruct (String.eqb (readyState e) "loading"); reflexivity.
  - destruct (isMobile e); [|reflexivity]. cbn [negb].
    destruct (String.eqb (readyState e) "loading"); reflexivity.
  - eexists. reflexivity.
  - reflexivity.
  - reflexivity.
  - reflexivity.
Qed.


(* ------------------------------------------------------------------ *)
(** * Further properties of the velocity estimate *)

Lemma state_eq (s1 s2 : Velocity.state) :
  Velocity.lastScrollY s1 = Velocity.lastScrollY s2 ->
  Velocity.scrollVelocity s1 = Velocity.scrollVelocity s2 ->
  Velocity.velocityHistory s1 = Velocity.velocityHistory s2 ->
  s1 = s2.
Proof. destruct s1, s2. cbn. now intros -> -> ->. Qed.

(** X1.  The window grows by one entry per sample until it holds five. *)
Theorem history_length_min :
  forall (y0 : Q) (ys : list Q),
    length (Velocity.velocityHistory (Velocity.run (Velocity.init y0) ys))
    = Nat.min (length ys) 5.
Proof.
  intros y0 ys. rewrite run_history by (simpl; lia).
  rewrite lastn_length. cbn [Velocity.init Velocity.velocityHistory app].
  rewrite deltas_length. lia.
Qed.

Lemma last_default_irrelevant {A} (a : A) (l : list A) (d d' : A) :
  last (a :: l) d = last (a :: l) d'.
Proof.
  revert a. induction l as [|b l IH]; intros a; [reflexivity|].
  change (last (a :: b :: l) d) with (last (b :: l) d).
  change (last (a :: b :: l) d') with (last (b :: l) d').
  apply IH.
Qed.

Lemma run_full_window (s : Velocity.state) (y : Q) (r : list Q) :
  (length (Velocity.velocityHistory s) <= 5)%nat ->
  (5 <= length r)%nat ->
  Velocity.velocityHistory (Velocity.run s (y :: r))
  = lastn 5 (Velocity.deltas y r).
Proof.
  intros Hs Hr. rewrite run_cons, run_history.
  - cbn [Velocity.sample Velocity.lastScrollY].
    apply lastn_app_full. now rewrite deltas_length.
  - cbn [Velocity.sample Velocity.velocityHistory]. now apply pushShift_length.
Qed.

(** X2.  The estimate forgets: once six positions have been fed, the whole state
    (history, velocity and last position) is determined by the last
    positions alone, whatever the page did before. *)
Theorem estimate_forgets :
  forall (y0 y0' : Q) (pre pre' ys : list Q),
    (6 <= length ys)%nat ->
    Velocity.run (Velocity.init y0) (pre ++ ys)
    = Velocity.run (Velocity.init y0') (pre' ++ ys).
Proof.
  intros y0 y0' pre pre' ys Hlen.
  destruct ys as [|y r]; [simpl in Hlen; lia|]. simpl in Hlen.
  assert (Hr : (5 <= length r)%nat) by lia.
  rewrite !run_app.
  set (s1 := Velocity.run (Velocity.init y0) pre).
  set (s2 := Velocity.run (Velocity.init y0') pre').
  assert (H1 : (length (Velocity.velocityHistory s1) <= 5)%nat)
    by (apply run_history_length; simpl; lia).
  assert (H2 : (length (Velocity.velocityHistory s2) <= 5)%nat)
    by (apply run_history_length; simpl; lia).
  assert (Hh : Velocity.velocityHistory (Velocity.run s1 (y :: r))
               = Velocity.velocityHistory (Velocity.run s2 (y :: r)))
    by (now rewrite !run_full_window).
  apply state_eq.
  - rewrite !run_lastScrollY. apply last_default_irrelevant.
  - rewrite !run_velocity by discriminate. now rewrite Hh.
  - exact Hh.
Qed.

Lemma estimate_forgets_witness :
  Velocity.run (Velocity.init 0) ([900] ++ [1; 2; 3; 4; 5; 6])
  = Velocity.run (Velocity.init 50) ([7; 8] ++ [1; 2; 3; 4; 5; 6]).
Proof.
  apply (estimate_forgets 0 50 [900] [7; 8] [1; 2; 3; 4; 5; 6]).
  simpl. lia.
Defined.

Lemma direction_succ (index : nat) : direction (S index) == - direction index.
Proof.
  unfold direction. rewrite Nat.even_succ, <- Nat.negb_even.
  destruct (Nat.even index); reflexivity.
Qed.

Lemma direction_abs (index : nat) : Qabs (direction index) == 1.
Proof. unfold direction. destruct (Nat.even index); reflexivity. Qed.

(** X5.  Neighbouring cards react in opposite directions and by the same
    amount: 0.03 pixels and 0.005 degrees per unit of velocity, whatever
    the card's position in the list; the first card (index 0) moves against
    the sign of the velocity, the second with it. *)
Theorem cards_alternate :
  forall (index : nat) (v : Q),
    velocityY (S index) v == - velocityY index v
    /\ velocityRotation (S index) v == - velocityRotation index v
    /\ Qabs (velocityY index v) == 0.03 * Qabs v
    /\ Qabs (velocityRotation index v) == 0.005 * Qabs v
    /\ velocityY 0 v == - (0.03 * v)
    /\ velocityY 1 v == 0.03 * v.
Proof.
  intros index v. unfold velocityY, velocityRotation.
  repeat split.
  - rewrite direction_succ. ring.
  - rewrite direction_succ. ring.
  - rewrite !Qabs_Qmult, direction_abs. setoid_replace (Qabs 0.03) with 0.03 by reflexivity. ring.
  - rewrite !Qabs_Qmult, direction_abs. setoid_replace (Qabs 0.005) with 0.005 by reflexivity. ring.
  - cbn [direction Nat.even]. ring.
  - cbn [direction Nat.even]. ring.
Qed.

(* ------------------------------------------------------------------ *)
(** * Further properties of the throttled sampler *)

Lemma rate_inv_init (t0 : Z) (y0 : Q) : rate_inv t0 (Sched.init t0 y0).
Proof. unfold rate_inv. cbn -[Z.mul]. repeat split; lia. Qed.

Lemma rate_inv_step (t0 : Z) (w w' : Sched.world) (ev : Sched.event) :
  sched_inv w -> rate_inv t0 w -> Sched.step w ev = Some w' -> rate_inv t0 w'.
Proof.
  intros [Hf Ht] [H0 [Hacc Hrate]]. unfold Sched.step.
  destruct (Z.ltb_spec (Sched.time ev) (Sched.now w)) as [|Hle]; [discriminate|].
  destruct ev as [t y|t|t]; cbn [Sched.time] in Hle.
  - intros [= <-].
    unfold Sched.scrollListener, Sched.throttle, Sched.handleScroll, rate_inv.
    cbn -[Z.mul]. destruct (Sched.inThrottle w) eqn:Ei; cbn -[Z.mul].
    + rewrite Ei. destruct Hrate as [d [Hd [Hd1 Hd2]]].
      split; [lia|]. split; [exact Hacc|]. exists d. repeat split; try assumption; lia.
    + destruct (Sched.ticking w) eqn:Ek; cbn -[Z.mul]; rewrite Ht; cbn -[Z.mul].
      * split; [lia|]. split; [exact Hacc|]. eexists. split; [reflexivity|]. lia.
      * split; [lia|]. split; [lia|]. eexists. split; [reflexivity|]. lia.
  - intros [= <-].
    destruct (iter_updateVelocity_frame (Sched.frameCallbacks w)
                (Sched.clear_frameCallbacks (Sched.at_time t w)))
      as [H1 [H2 [H3 H4]]].
    destruct (iter_updateVelocity_vel (Sched.frameCallbacks w)
                (Sched.clear_frameCallbacks (Sched.at_time t w)))
      as [_ [_ H5]].
    pose proof (iter_updateVelocity_now (Sched.frameCallbacks w)
                  (Sched.clear_frameCallbacks (Sched.at_time t w))) as H6.
    unfold rate_inv. rewrite H1, H2, H3, H4, H5, H6. cbn -[Z.mul].
    split; [lia|]. split; [lia|].
    destruct (Sched.inThrottle w).
    + destruct Hrate as [d [Hd [Hd1 Hd2]]]. exists d. repeat split; try assumption; lia.
    + lia.
  - destruct (Sched.timers w) as [|d rest] eqn:Et; [discriminate|].
    destruct (Z.leb_spec d t) as [Hdt|]; [|discriminate].
    intros [= <-]. unfold rate_inv. cbn -[Z.mul].
    destruct (Sched.inThrottle w); [|discriminate].
    destruct Hrate as [d' [Hd' [Hd1 Hd2]]].
    rewrite ?Et in Hd'. inversion Hd'; subst d' rest.
    split; [lia|]. split; [exact Hacc|]. lia.
Qed.

Lemma rate_inv_exec (t0 : Z) (evs : list Sched.event) (w w' : Sched.world) :
  sched_inv w -> rate_inv t0 w -> Sched.exec w evs = Some w' -> rate_inv t0 w'.
Proof.
  revert w. induction evs as [|ev r IH]; intros w Hs Hr.
  - now intros [= <-].
  - cbn [Sched.exec]. destruct (Sched.step w ev) as [w1|] eqn:E; [|discriminate].
    apply IH; [eapply sched_inv_step|eapply rate_inv_step]; eassumption.
Qed.

(** X7.  No frame request is lost or sampled twice: at any moment the number of
    frames requested is the number of samples taken plus the one request
    that may still be pending. *)
Theorem sampler_accounting :
  forall (t0 : Z) (y0 : Q) (evs : list Sched.event) (w : Sched.world),
    Sched.exec (Sched.init t0 y0) evs = Some w ->
    Sched.requested w = (Sched.sampled w + Sched.frameCallbacks w)%nat
    /\ (Sched.sampled w <= Sched.requested w)%nat
    /\ (Sched.requested w <= Sched.sampled w + 1)%nat.
Proof.
  intros t0 y0 evs w H.
  assert (Hs : sched_inv w)
    by (eapply sched_inv_exec; [apply sched_inv_init|exact H]).
  assert (Hr : rate_inv t0 w)
    by (eapply rate_inv_exec; [apply sched_inv_init|apply rate_inv_init|exact H]).
  destruct Hr as [_ [Hacc _]]. destruct Hs as [Hf _].
  split; [exact Hacc|]. rewrite Hacc, Hf. destruct (Sched.ticking w); lia.
Qed.

Lemma sampler_accounting_witness :
  match Sched.exec (Sched.init 0 0)
          [Sched.Scroll 10 30; Sched.Frame 16; Sched.Timeout 60;
           Sched.Scroll 70 90] with
  | Some w => Sched.requested w = (Sched.sampled w + Sched.frameCallbacks w)%nat
  | None => False
  end.
Proof.
  destruct (Sched.exec (Sched.init 0 0)
              [Sched.Scroll 10 30; Sched.Frame 16; Sched.Timeout 60;
               Sched.Scroll 70 90]) as [w|] eqn:E.
  - apply (sampler_accounting 0%Z 0 _ w E).
  - vm_compute in E. discriminate E.
Defined.

(** X8.  The sampler is paced by the 50ms throttle: [n] frame requests (hence
    [n] samples) need at least [50 * (n - 1)] milliseconds, that is at most
    20 per second after the first. *)
Theorem sampler_rate_bound :
  forall (t0 : Z) (y0 : Q) (evs : list Sched.event) (w : Sched.world),
    Sched.exec (Sched.init t0 y0) evs = Some w ->
    (50 * Z.of_nat (Sched.requested w) <= Sched.now w - t0 + 50)%Z
    /\ (50 * Z.of_nat (Sched.sampled w) <= Sched.now w - t0 + 50)%Z.
Proof.
  intros t0 y0 evs w H.
  assert (Hr : rate_inv t0 w)
    by (eapply rate_inv_exec; [apply sched_inv_init|apply rate_inv_init|exact H]).
  destruct Hr as [_ [Hacc Hrate]].
  assert (R : (50 * Z.of_nat (Sched.requested w) <= Sched.now w - t0 + 50)%Z).
  { destruct (Sched.inThrottle w); [|lia].
    destruct Hrate as [d [_ [Hd1 Hd2]]]. lia. }
  split; [exact R|]. lia.
Qed.

Lemma sampler_rate_bound_witness :
  match Sched.exec (Sched.init 0 0)
          [Sched.Scroll 10 30; Sched.Frame 16; Sched.Timeout 60;
           Sched.Scroll 70 90] with
  | Some w => (50 * Z.of_nat (Sched.requested w) <= Sched.now w - 0 + 50)%Z
  | None => False
  end.
Proof.
  destruct (Sched.exec (Sched.init 0 0)
              [Sched.Scroll 10 30; Sched.Frame 16; Sched.Timeout 60;
               Sched.Scroll 70 90]) as [w|] eqn:E.
  - apply (sampler_rate_bound 0%Z 0 _ w E).
  - vm_compute in E. discriminate E.
Defined.

(** X9.  Only animation frames touch the estimate.  Scroll events and timer
    firings leave it as it is; a frame with a pending request samples the
    offset the page has at the frame (the offset brought by the latest scroll
    event, also when the throttle dropped that event), and a frame with no
    pending request samples nothing. *)
Theorem frame_samples_latest_offset :
  forall (t0 : Z) (y0 : Q) (evs : list Sched.event) (w : Sched.world),
    Sched.exec (Sched.init t0 y0) evs = Some w ->
    (forall t y w', Sched.step w (Sched.Scroll t y) = Some w' ->
                    Sched.vel w' = Sched.vel w /\ Sched.scrollY w' = y)
    /\ (forall t w', Sched.step w (Sched.Timeout t) = Some w' ->
                     Sched.vel w' = Sched.vel w)
    /\ (forall t, (Sched.now w <= t)%Z ->
          exists w', Sched.step w (Sched.Frame t) = Some w'
            /\ Sched.vel w'
               = (if Sched.ticking w
                  then Velocity.sample (Sched.scrollY w) (Sched.vel w)
                  else Sched.vel w)
            /\ (Sched.ticking w = true ->
                Velocity.lastScrollY (Sched.vel w') = Sched.scrollY w)).
Proof.
  intros t0 y0 evs w H.
  assert (Hs : sched_inv w)
    by (eapply sched_inv_exec; [apply sched_inv_init|exact H]).
  split; [|split].
  - intros t y w'. unfold Sched.step.
    destruct (Sched.time (Sched.Scroll t y) <? Sched.now w)%Z; [discriminate|].
    intros [= <-].
    unfold Sched.scrollListener, Sched.throttle, Sched.handleScroll. cbn.
    destruct (Sched.inThrottle w); [now split|].
    destruct (Sched.ticking w); now split.
  - intros t w'. unfold Sched.step.
    destruct (Sched.time (Sched.Timeout t) <? Sched.now w)%Z; [discriminate|].
    destruct (Sched.timers w) as [|d rest]; [discriminate|].
    destruct (d <=? t)%Z; [|discriminate]. now intros [= <-].
  - intros t Ht. unfold Sched.step. cbn [Sched.time].
    destruct (Z.ltb_spec t (Sched.now w)) as [?|_]; [lia|].
    eexists. split; [reflexivity|].
    destruct Hs as [Hf _]. rewrite Hf.
    destruct (Sched.ticking w); cbn; split; try reflexivity; discriminate.
Qed.

Lemma frame_samples_latest_offset_witness :
  match Sched.exec (Sched.init 0 0) [Sched.Scroll 10 30; Sched.Scroll 20 75] with
  | Some w =>
      exists w', Sched.step w (Sched.Frame 32) = Some w'
                 /\ Velocity.lastScrollY (Sched.vel w') = 75
  | None => False
  end.
Proof.
  destruct (Sched.exec (Sched.init 0 0) [Sched.Scroll 10 30; Sched.Scroll 20 75])
    as [w|] eqn:E.
  - destruct (frame_samples_latest_offset 0%Z 0 _ w E) as [_ [_ F]].
    assert (Hw : Sched.now w = 20%Z /\ Sched.ticking w = true
                 /\ Sched.scrollY w = 75).
    { clear F. vm_compute in E. injection E as <-. now repeat split. }
    destruct Hw as [Hn [Hk Hy]].
    destruct (F 32%Z) as [w' [S1 [_ S3]]]; [rewrite Hn; lia|].
    exists w'. split; [exact S1|]. now rewrite S3, Hy.
  - vm_compute in E. discriminate E.
Defined.

(** X10.  A throttle window lasts at least 50ms and then reopens: after the
    scroll event that closes the throttle at time [t], the timer cannot
    fire before [t + 50]; when it does fire the throttle is open again, and
    the next scroll event is accepted: it closes the throttle for another
    50ms and leaves a frame request pending. *)
Theorem throttle_reopens :
  forall (t0 : Z) (y0 : Q) (evs : list Sched.event) (w w1 : Sched.world)
         (t : Z) (y : Q),
    Sched.exec (Sched.init t0 y0) evs = Some w ->
    Sched.inThrottle w = false ->
    Sched.step w (Sched.Scroll t y) = Some w1 ->
    (forall t', (t' < t + 50)%Z -> Sched.step w1 (Sched.Timeout t') = None)
    /\ (forall t', (t + 50 <= t')%Z ->
          exists w2, Sched.step w1 (Sched.Timeout t') = Some w2
            /\ Sched.inThrottle w2 = false
            /\ Sched.timers w2 = []
            /\ forall t'' y', (t' <= t'')%Z ->
                 exists w3, Sched.step w2 (Sched.Scroll t'' y') = Some w3
                   /\ Sched.inThrottle w3 = true
                   /\ Sched.timers w3 = [(t'' + 50)%Z]
                   /\ Sched.frameCallbacks w3 = 1%nat).
Proof.
  intros t0 y0 evs w w1 t y H Hidle H1.
  assert (Hs : sched_inv w)
    by (eapply sched_inv_exec; [apply sched_inv_init|exact H]).
  destruct (leading_scroll _ _ _ _ Hs Hidle H1) as [[Hi [Ht _]] [_ [Hk Hc]]].
  destruct (step_now _ _ _ H1) as [Hn _]. cbn [Sched.time] in Hn.
  split.
  - intros t' Hlt. unfold Sched.step. cbn [Sched.time]. rewrite Ht.
    destruct (t' <? Sched.now w1)%Z; [reflexivity|].
    destruct (Z.leb_spec (t + 50) t'); [lia|reflexivity].
  - intros t' Hge. unfold Sched.step at 1. cbn [Sched.time]. rewrite Ht, Hn.
    destruct (Z.ltb_spec t' t); [lia|].
    destruct (Z.leb_spec (t + 50) t'); [|lia].
    eexists. split; [reflexivity|]. split; [reflexivity|]. split; [reflexivity|].
    intros t'' y' Hle. unfold Sched.step. cbn [Sched.time].
    cbn [Sched.now Sched.set_inThrottle Sched.set_timers Sched.at_time].
    destruct (Z.ltb_spec t'' t'); [lia|].
    eexists. split; [reflexivity|].
    unfold Sched.scrollListener, Sched.throttle, Sched.handleScroll. cbn.
    rewrite Hk. cbn. rewrite Hc. now repeat split.
Qed.

Lemma throttle_reopens_witness :
  match Sched.step (Sched.init 0 0) (Sched.Scroll 10 30) with
  | Some w1 =>
      Sched.step w1 (Sched.Timeout 59) = None
      /\ exists w2, Sched.step w1 (Sched.Timeout 60) = Some w2
                    /\ Sched.inThrottle w2 = false
  | None => False
  end.
Proof.
  destruct (Sched.step (Sched.init 0 0) (Sched.Scroll 10 30)) as [w1|] eqn:E.
  - destruct (throttle_reopens 0%Z 0 [] (Sched.init 0 0) w1 10%Z 30
                eq_refl eq_refl E) as [A B].
    split; [apply A; lia|].
    destruct (B 60%Z) as [w2 [S1 [S2 _]]]; [lia|].
    exists w2. now split.
  - vm_compute in E. discriminate E.
Defined.

(* ------------------------------------------------------------------ *)
(** * The device classification is a case-insensitive substring search *)

Lemma prefix_spec (p s : string) :
  String.prefix p s = true <-> exists b, s = (p ++ b)%string.
Proof.
  revert s. induction p as [|c p IH]; intros s.
  - split; [intros _; now exists s|]. intros _. now destruct s.
  - destruct s as [|c' s]; cbn [String.prefix].
    + split; [discriminate|]. intros [b Hb]. discriminate Hb.
    + destruct (Ascii.ascii_dec c c') as [->|Hne].
      * rewrite IH. split; intros [b Hb]; exists b.
        -- cbn. now rewrite Hb.
        -- cbn in Hb. now injection Hb.
      * split; [discriminate|]. intros [b Hb]. cbn in Hb.
        injection Hb as Hc _. now elim Hne.
Qed.

Lemma occursIn_spec (p s : string) :
  occursIn p s = true <-> exists a b, s = (a ++ p ++ b)%string.
Proof.
  induction s as [|c s IH]; cbn [occursIn]; rewrite orb_true_iff, prefix_spec.
  - split.
    + intros [[b Hb]|H]; [|discriminate]. now exists EmptyString, b.
    + intros [a [b H]]. left. destruct a; [now exists b|discriminate H].
  - rewrite IH. split.
    + intros [[b Hb]|[a [b Hab]]].
      * now exists EmptyString, b.
      * exists (String c a), b. cbn. now rewrite Hab.
    + intros [a [b H]]. destruct a as [|c' a].
      * left. now exists b.
      * right. cbn in H. injection H as _ H. now exists a, b.
Qed.

Lemma lower_app (a b : string) : lower (a ++ b) = (lower a ++ lower b)%string.
Proof. induction a as [|c a IH]; cbn; [reflexivity|now rewrite IH]. Qed.

Lemma toLower_idem (c : ascii) : toLower (toLower c) = toLower c.
Proof. destruct c as [[] [] [] [] [] [] [] []]; reflexivity. Qed.

Lemma lower_idem (s : string) : lower (lower s) = lower s.
Proof.
  induction s as [|c s IH]; cbn; [reflexivity|].
  now rewrite toLower_idem, IH.
Qed.

Lemma isMobileUA_iff (ua : string) :
  isMobileUA ua = true <->
  exists tok a b,
    In tok mobileTokens /\ lower ua = (a ++ lower tok ++ b)%string.
Proof.
  unfold isMobileUA. rewrite existsb_exists. split.
  - intros [tok [Hin Hocc]]. apply occursIn_spec in Hocc.
    destruct Hocc as [a [b H]]. now exists tok, a, b.
  - intros [tok [a [b [Hin H]]]]. exists tok. split; [exact Hin|].
    apply occursIn_spec. now exists a, b.
Qed.

(** X11.  The classification is exactly a case-insensitive substring search for
    one of the eight device tokens, and it is blind to letter case. *)
Theorem isMobileUA_spec :
  forall ua : string,
    (isMobileUA ua = true <->
     exists tok a b,
       In tok mobileTokens /\ lower ua = (a ++ lower tok ++ b)%string)
    /\ isMobileUA (lower ua) = isMobileUA ua.
Proof.
  intros ua. split; [apply isMobileUA_iff|].
  unfold isMobileUA. now rewrite lower_idem.
Qed.

(** X12.  A user agent that is classified as mobile stays so whatever text is
    put before and after it. *)
Theorem isMobileUA_context :
  forall ua pre post : string,
    isMobileUA ua = true -> isMobileUA (pre ++ ua ++ post) = true.
Proof.
  intros ua pre post H.
  apply isMobileUA_iff in H. destruct H as [tok [a [b [Hin E]]]].
  apply isMobileUA_iff.
  exists tok, (lower pre ++ a)%string, (b ++ lower post)%string.
  split; [exact Hin|].
  rewrite !lower_app, E.
  clear. induction (lower pre) as [|c s IH]; cbn.
  - induction a as [|c a IH]; cbn; [|now rewrite IH].
    induction (lower tok) as [|c t IH]; cbn; [reflexivity|now rewrite IH].
  - now rewrite IH.
Qed.

Lemma isMobileUA_context_witness :
  isMobileUA ("Mozilla/5.0 (" ++ "iPad; CPU OS 16_0" ++ ") Safari/604.1") = true.
Proof.
  apply (isMobileUA_context "iPad; CPU OS 16_0" "Mozilla/5.0 (" ") Safari/604.1").
  reflexivity.
Defined.

(* ------------------------------------------------------------------ *)
(** * Further properties of the handlers *)

Lemma Qlt_bool_iff (a b : Q) : Touch.Qlt_bool a b = true <-> a < b.
Proof.
  unfold Touch.Qlt_bool. rewrite negb_true_iff.
  destruct (Qle_bool b a) eqn:E.
  - apply Qle_bool_iff in E. split; [discriminate|]. intros H.
    exfalso. revert E. now apply Qlt_not_le.
  - split; [|reflexivity]. intros _. apply Qnot_le_lt. intros H.
    apply Qle_bool_iff in H. congruence.
Qed.

(** X14.  The move handler blocks the default action exactly when the finger
    moves up while the page is scrolled to its bottom, or moves down while
    the page is at its top; it never blocks twice for one event, and an
    event without touches makes it raise. *)
Theorem touchmove_blocks_overscroll_only :
  forall (touchStartY : Q) (v : Touch.viewport) (clientY : Q) (rest : list Q),
    (Touch.touchmove touchStartY v (clientY :: rest) = Some [PreventDefault]
     <-> (clientY < touchStartY
          /\ Touch.scrollHeight v <= Touch.scrollY v + Touch.innerHeight v)
         \/ (touchStartY < clientY /\ Touch.scrollY v <= 0))
    /\ (Touch.touchmove touchStartY v (clientY :: rest) = Some [PreventDefault]
        \/ Touch.touchmove touchStartY v (clientY :: rest) = Some [])
    /\ Touch.touchmove touchStartY v [] = None
    /\ Touch.touchstartRecord (clientY :: rest) = Some clientY.
Proof.
  intros s v y rest. unfold Touch.touchmove. cbn [hd_error].
  destruct (Touch.Qlt_bool y s) eqn:E1; destruct (Touch.Qlt_bool s y) eqn:E2.
  - apply Qlt_bool_iff in E1. apply Qlt_bool_iff in E2.
    exfalso. apply (Qlt_irrefl y). now apply Qlt_trans with s.
  - apply Qlt_bool_iff in E1. cbn [andb app].
    destruct (Qle_bool (Touch.scrollHeight v) (Touch.scrollY v + Touch.innerHeight v))
      eqn:E3; cbn [app].
    + apply Qle_bool_iff in E3. repeat split; auto.
    + repeat split; auto; try discriminate.
      intros [[_ H]|[H _]].
      * apply Qle_bool_iff in H. congruence.
      * exfalso. apply (Qlt_irrefl y). now apply Qlt_trans with s.
  - apply Qlt_bool_iff in E2. cbn [andb app].
    destruct (Qle_bool (Touch.scrollY v) 0) eqn:E3.
    + apply Qle_bool_iff in E3. repeat split; auto.
    + repeat split; auto; try discriminate.
      intros [[H _]|[_ H]].
      * exfalso. apply (Qlt_irrefl y). now apply Qlt_trans with s.
      * apply Qle_bool_iff in H. congruence.
  - cbn [andb app]. repeat split; auto; try discriminate.
    intros [[H _]|[H _]]; apply Qlt_bool_iff in H; congruence.
Qed.

(** X15.  In the middle of the page (not at the top, not at the bottom) the move
    handler never blocks a touch move, and a single-finger touch start is
    never blocked. *)
Theorem touch_scrolling_unhindered :
  forall (touchStartY : Q) (v : Touch.viewport) (clientY : Q),
    0 < Touch.scrollY v ->
    Touch.scrollY v + Touch.innerHeight v < Touch.scrollHeight v ->
    Touch.touchmove touchStartY v [clientY] = Some []
    /\ Touch.touchstartMulti [clientY] = [].
Proof.
  intros s v y Htop Hbot. split; [|reflexivity].
  unfold Touch.touchmove. cbn [hd_error].
  assert (F : forall a b, a < b -> Qle_bool b a = false).
  { intros a b Hab. destruct (Qle_bool b a) eqn:E; [|reflexivity].
    apply Qle_bool_iff in E. exfalso. revert E. now apply Qlt_not_le. }
  pose proof (F _ _ Hbot) as E1. pose proof (F _ _ Htop) as E2.
  rewrite E1, E2, !andb_false_r. reflexivity.
Qed.

Lemma touch_scrolling_unhindered_witness :
  Touch.touchmove 300 (Touch.mkViewport 120 800 4000) [250] = Some []
  /\ Touch.touchstartMulti [250] = [].
Proof.
  apply (touch_scrolling_unhindered 300 (Touch.mkViewport 120 800 4000) 250);
    reflexivity.
Defined.

(* ------------------------------------------------------------------ *)
(** * How many bindings a page gets *)

Lemma counts_ret : counts ret 0.
Proof. now split. Qed.

Lemma counts_perform (e : env) (c : call) : counts (perform (quiet e) c) 1.
Proof. now split. Qed.

Lemma counts_andThen (a b : M) (n m : nat) :
  counts a n -> counts b m -> counts (a ;; b) (n + m).
Proof.
  intros [Ha Hn] [Hb Hm]. destruct a as [t o]. cbn in Ha. subst o.
  split; [exact Hb|]. cbn. rewrite bindings_app, length_app. cbn in Hn. lia.
Qed.

Lemma counts_forEach {A} (l : list A) (f : A -> nat -> M) (k : nat) :
  (forall a j, counts (f a j) k) -> counts (forEach l f) (k * length l).
Proof.
  intros Hf. unfold forEach. generalize 0%nat.
  induction l as [|a l IH]; intros i; cbn [forEachFrom length].
  - rewrite Nat.mul_0_r. apply counts_ret.
  - replace (k * S (length l))%nat with (k + k * length l)%nat by lia.
    apply counts_andThen; [apply Hf|apply IH].
Qed.

Lemma counts_tryCatch (m : M) (msg : string) (n : nat) :
  counts m n -> counts (tryCatch m msg) n.
Proof. intros [Hs Hn]. destruct m as [t o]. cbn in Hs. subst o. now split. Qed.

Lemma counts_eq (m : M) (n n' : nat) : counts m n -> n = n' -> counts m n'.
Proof. now intros H <-. Qed.

Ltac count_calls :=
  repeat first
    [ apply counts_perform
    | apply counts_ret
    | apply (counts_andThen _ _ 1) ].

Lemma imageFocusTransition_counts (e : env) :
  counts (imageFocusTransition (quiet e))
    (2 * count e ".cs_about_thumbnail_1 img, .cs_testimonial_thumbnail img").
Proof.
  unfold imageFocusTransition, count. apply counts_forEach. intros a j.
  change 2%nat with (1 + 1)%nat. count_calls.
Qed.

Lemma velocityElements_counts (e : env) :
  counts (velocityElements (quiet e)) (3 * count e ".property-card").
Proof.
  unfold velocityElements, count. apply counts_forEach. intros a j.
  change 3%nat with (1 + (1 + 1))%nat. count_calls.
Qed.

Lemma pinnedSectionMicroMovements_counts (e : env) :
  counts (pinnedSectionMicroMovements (quiet e))
    (2 * count e ".cs_card.cs_style_5").
Proof.
  unfold pinnedSectionMicroMovements, count. apply counts_forEach. intros a j.
  change 2%nat with (1 + 1)%nat. count_calls.
Qed.

Lemma subtlePerspectiveDepth_counts (e : env) :
  counts (subtlePerspectiveDepth (quiet e))
    (2 * count e ".specialites, .cs_testimonial" + count e ".cs_info_item").
Proof.
  unfold subtlePerspectiveDepth, count. apply counts_andThen.
  - apply counts_forEach. intros a j. change 2%nat with (1 + 1)%nat. count_calls.
  - eapply counts_eq;
      [apply (counts_forEach _ _ 1); intros a j; count_calls
      |cbn [quiet querySelectorAll]; lia].
Qed.

Lemma magneticHoverEffect_counts (e : env) :
  counts (magneticHoverEffect (quiet e)) (3 * count e ".cs_btn.cs_style_1").
Proof.
  unfold magneticHoverEffect, count. apply counts_forEach. intros a j.
  change 3%nat with (1 + (1 + 1))%nat. count_calls.
Qed.

Lemma aboutImages_counts (e : env) :
  counts (aboutImages (quiet e)) (count e ".cs_about_thumbnail img").
Proof.
  unfold aboutImages, count.
  eapply counts_eq;
    [apply (counts_forEach _ _ 1); intros a j; count_calls
    |cbn [quiet querySelectorAll]; lia].
Qed.

Lemma V2_multiLayerParallax_counts (e : env) :
  counts (V2.multiLayerParallax (quiet e))
    (match querySelector e ".cs_hero" with
     | Some _ => matched e layerSelectors + count e ".cs_about_thumbnail img"
     | None => 0
     end).
Proof.
  unfold V2.multiLayerParallax.
  change (querySelector (quiet e)) with (querySelector e).
  destruct (querySelector e ".cs_hero") as [hero|]; [|apply counts_ret].
  apply counts_andThen; [|apply aboutImages_counts].
  unfold forEach, V2.parallaxElements, matched, layerSelectors.
  cbn [forEachFrom filter V2.element].
  destruct (querySelector e ".cs_hero_content_wrapper");
    destruct (querySelector e ".cs_hero_info_box");
    destruct (querySelector e ".cs_hero_shape_2"); now split.
Qed.

Lemma V1_multiLayerParallax_counts (e : env) :
  isMobile e = false ->
  counts (V1.multiLayerParallax (quiet e))
    (match querySelector e ".cs_hero" with
     | Some _ => matched e layerSelectors + count e ".cs_about_thumbnail img"
     | None => 0
     end).
Proof.
  intros Hm. unfold V1.multiLayerParallax.
  change (querySelector (quiet e)) with (querySelector e).
  change (isMobile (quiet e)) with (isMobile e). rewrite Hm.
  destruct (querySelector e ".cs_hero") as [hero|]; [|apply counts_ret].
  apply counts_andThen; [|apply aboutImages_counts].
  unfold forEach, V1.parallaxElements, matched, layerSelectors.
  cbn [forEachFrom filter V1.element V1.mobile andb].
  destruct (querySelector e ".cs_hero_content_wrapper");
    destruct (querySelector e ".cs_hero_info_box");
    destruct (querySelector e ".cs_hero_shape_2"); now split.
Qed.

(** X16.  The number of bindings a failure-free page load registers through
    [initPremiumAnimations], from the number of elements each selector
    matches: per focus image 2, per card 3 plus the one scroll listener, per
    process card 2, per depth section 2, per info box 1, per button 3
    listeners, and, only when the hero section exists, one per parallax
    layer found and one per about image.  A mobile runtime (first revision)
    gets the focus images' bindings and three touch listeners. *)
Theorem binding_count :
  forall e : env,
    let focus :=
      (2 * count e ".cs_about_thumbnail_1 img, .cs_testimonial_thumbnail img")%nat in
    let heavy :=
      ((match querySelector e ".cs_hero" with
        | Some _ => matched e layerSelectors + count e ".cs_about_thumbnail img"
        | None => 0
        end)
       + (1 + 3 * count e ".property-card")
       + 2 * count e ".cs_card.cs_style_5"
       + (2 * count e ".specialites, .cs_testimonial" + count e ".cs_info_item")
       + 3 * count e ".cs_btn.cs_style_1")%nat in
    length (bindings (fst (V2.initPremiumAnimations (quiet e))))
    = (heavy + focus)%nat
    /\ length (bindings (fst (V1.initPremiumAnimations (quiet e))))
       = (if isMobile e then focus + 3 else heavy + focus)%nat.
Proof.
  intros e focus heavy.
  pose proof (imageFocusTransition_counts e) as C2.
  pose proof (velocityElements_counts e) as C3.
  pose proof (pinnedSectionMicroMovements_counts e) as C4.
  pose proof (subtlePerspectiveDepth_counts e) as C5.
  pose proof (magneticHoverEffect_counts e) as C6.
  split.
  - pose proof (V2_multiLayerParallax_counts e) as C1.
    assert (C : counts (V2.initPremiumAnimations (quiet e)) (heavy + focus)).
    { apply counts_tryCatch. unfold V2.registrationPass, V2.scrollVelocityParallax.
      eapply counts_eq.
      - apply counts_andThen; [exact C1|].
        apply counts_andThen; [exact C2|].
        apply counts_andThen;
          [apply counts_andThen; [apply counts_perform|exact C3]|].
        apply counts_andThen; [exact C4|].
        apply counts_andThen; [exact C5|exact C6].
      - unfold heavy, focus. lia. }
    apply C.
  - assert (C : counts (V1.initPremiumAnimations (quiet e))
                  (if isMobile e then focus + 3 else heavy + focus)).
    { apply counts_tryCatch. unfold V1.registrationPass, V1.scrollVelocityParallax.
      change (isMobile (quiet e)) with (isMobile e).
      destruct (isMobile e) eqn:Em; cbn [negb].
      - apply (counts_andThen _ _ 0); [apply counts_ret|].
        apply counts_andThen; [exact C2|].
        unfold V1.optimizeTouchEvents. change 3%nat with (1 + (1 + 1))%nat.
        count_calls.
      - pose proof (V1_multiLayerParallax_counts e Em) as C1.
        eapply counts_eq.
        + apply counts_andThen.
          * apply counts_andThen; [exact C1|].
            apply counts_andThen;
              [apply counts_andThen; [apply counts_perform|exact C3]|].
            apply counts_andThen; [exact C4|].
            apply counts_andThen; [exact C5|exact C6].
          * apply counts_andThen; [exact C2|apply counts_ret].
        + unfold heavy, focus. lia. }
    apply C.
Qed.

(* ------------------------------------------------------------------ *)
(** * Pages without the expected elements, and failures outside the guard *)

(** X17.  On a page where none of the selectors matches, the registration pass
    makes no call on the animation capability at all: it consists of the
    scroll listener alone (of the three touch listeners on a mobile runtime
    of the first revision), whatever calls would raise. *)
Theorem empty_page_registers_listeners_only :
  forall e : env,
    (forall sel, querySelectorAll e sel = []) ->
    V2.registrationPass e
    = perform e (AddEventListener Window "scroll" OnScroll [])
    /\ V1.registrationPass e
       = (if isMobile e then V1.optimizeTouchEvents e
          else perform e (AddEventListener Window "scroll" OnScroll
                            [("passive", VBool true)])).
Proof.
  intros e H.
  assert (Q : forall sel, querySelector e sel = None)
    by (intros sel; unfold querySelector; now rewrite H).
  assert (F : imageFocusTransition e = ret)
    by (unfold imageFocusTransition; now rewrite H).
  assert (Vx : velocityElements e = ret)
    by (unfold velocityElements; now rewrite H).
  assert (P : pinnedSectionMicroMovements e = ret)
    by (unfold pinnedSectionMicroMovements; now rewrite H).
  assert (D : subtlePerspectiveDepth e = ret)
    by (unfold subtlePerspectiveDepth; now rewrite !H).
  assert (G : magneticHoverEffect e = ret)
    by (unfold magneticHoverEffect; now rewrite H).
  split.
  - unfold V2.registrationPass, V2.multiLayerParallax, V2.scrollVelocityParallax.
    rewrite Q, F, Vx, P, D, G. now rewrite !andThen_ret_l, !andThen_ret_r.
  - unfold V1.registrationPass, V1.multiLayerParallax, V1.scrollVelocityParallax.
    rewrite Q, F, Vx, P, D, G.
    destruct (isMobile e); cbn [negb];
      now rewrite ?andThen_ret_l, ?andThen_ret_r.
Qed.

Lemma empty_page_registers_listeners_only_witness :
  V2.initPremiumAnimations emptyPage
  = ([Did (AddEventListener Window "scroll" OnScroll [])], Normal).
Proof.
  unfold V2.initPremiumAnimations.
  destruct (empty_page_registers_listeners_only emptyPage) as [-> _];
    reflexivity.
Defined.

(** X18.  The guard covers [initPremiumAnimations] only.  When registering the
    scroll-trigger plugin raises at the top level of the script, the
    exception reaches the page, the [DOMContentLoaded] listener is never
    registered, and so no effect is ever bound: the second revision leaves
    nothing at all, the first at most the class it put on the document
    element. *)
Theorem top_level_failure_unguarded :
  forall e : env,
    gsapDefined e = true ->
    prefersReducedMotion e = false ->
    scrollTriggerDefined e = true ->
    throws e RegisterPlugin = true ->
    pageLoad V2.main V2.initPremiumAnimations e = ([], Thrown RegisterPlugin)
    /\ (exists err,
           snd (pageLoad V1.main V1.initPremiumAnimations e) = Thrown err)
    /\ existsb listensDomContentLoaded
         (fst (pageLoad V1.main V1.initPremiumAnimations e)) = false
    /\ (length (bindings (fst (pageLoad V1.main V1.initPremiumAnimations e)))
        <= 1)%nat.
Proof.
  intros e Hg Hr Hs Ht.
  assert (E2 : V2.main e = ([], Thrown RegisterPlugin)).
  { unfold V2.main. rewrite Hg, Hr, Hs. cbn [negb orb].
    unfold perform at 1. now rewrite Ht. }
  assert (E1 : exists t err,
             V1.main e = (t, Thrown err)
             /\ existsb listensDomContentLoaded t = false
             /\ (length (bindings t) <= 1)%nat).
  { unfold V1.main. rewrite Hg, Hr, Hs. cbn [negb orb].
    unfold perform at 2. rewrite Ht.
    destruct (isMobile e).
    - unfold perform at 1. destruct (throws e (ClassListAdd "mobile-device")).
      + exists [], (ClassListAdd "mobile-device"). cbn. repeat split; lia.
      + exists [Did (ClassListAdd "mobile-device")], RegisterPlugin.
        cbn. repeat split; lia.
    - exists [], RegisterPlugin. cbn. repeat split; lia. }
  split.
  - unfold pageLoad. now rewrite E2.
  - destruct E1 as [t [err [E [Hl Hb]]]]. unfold pageLoad. rewrite E.
    cbn [fst snd]. rewrite Hl. cbn [fst snd]. eauto.
Qed.

Lemma top_level_failure_unguarded_witness :
  pageLoad V2.main V2.initPremiumAnimations pluginFailsEnv
  = ([], Thrown RegisterPlugin).
Proof.
  apply (top_level_failure_unguarded pluginFailsEnv); reflexivity.
Defined.

(* ------------------------------------------------------------------ *)
(** * The estimate when scrolling stops *)

Lemma at_rest_step (w w1 w2 : Sched.world) (ev : Sched.event) :
  sched_inv w1 -> at_rest w w1 -> isScroll ev = false ->
  Sched.step w1 ev = Some w2 -> at_rest w w2.
Proof.
  intros [Hf _] [Hy Hcases] Hns. unfold Sched.step.
  destruct (Sched.time ev <? Sched.now w1)%Z; [discriminate|].
  destruct ev as [t y|t|t]; [discriminate Hns| |].
  - intros [= <-]. rewrite Hf. unfold at_rest.
    destruct Hcases as [[Hv [Hk Hs]]|[Hk [Hv [Hk1 Hs]]]].
    + destruct (Sched.ticking w1) eqn:E1; cbn.
      * split; [exact Hy|]. right. rewrite Hv, Hy, Hs. now repeat split.
      * split; [exact Hy|]. left. rewrite E1. now repeat split.
    + rewrite Hk1. cbn. split; [exact Hy|]. right. rewrite Hk1. now repeat split.
  - destruct (Sched.timers w1) as [|d rest]; [discriminate|].
    destruct (d <=? t)%Z; [|discriminate].
    intros [= <-]. unfold at_rest. cbn. split; [exact Hy|exact Hcases].
Qed.

Lemma at_rest_exec (w : Sched.world) (rest : list Sched.event)
      (w1 w' : Sched.world) :
  sched_inv w1 -> at_rest w w1 ->
  Forall (fun ev => isScroll ev = false) rest ->
  Sched.exec w1 rest = Some w' -> at_rest w w'.
Proof.
  revert w1. induction rest as [|ev r IH]; intros w1 Hs Hr Hall.
  - now intros [= <-].
  - inversion Hall as [|ev' r' Hev Hr']; subst.
    cbn [Sched.exec]. destruct (Sched.step w1 ev) as [w2|] eqn:E; [|discriminate].
    apply IH; [eapply sched_inv_step; eassumption| |exact Hr'].
    eapply at_rest_step; eassumption.
Qed.

(** X4.  The estimate is written only in response to scroll events, so when
    scrolling stops it freezes: whatever frames and timer firings follow,
    the estimate is sampled at most once more (by the frame request still
    pending, if any) and then keeps its value.  With no request pending it
    does not change at all, and if the velocity is then 0.5 or more the
    cards' update callback never issues its reset tween. *)
Theorem velocity_frozen_when_scrolling_stops :
  forall (t0 : Z) (y0 : Q) (evs rest : list Sched.event)
         (w w' : Sched.world) (element : elem),
    Sched.exec (Sched.init t0 y0) evs = Some w ->
    Forall (fun ev => isScroll ev = false) rest ->
    Sched.exec w rest = Some w' ->
    (Sched.sampled w' <= Sched.sampled w + 1)%nat
    /\ (Sched.vel w' = Sched.vel w
        \/ (Sched.ticking w = true
            /\ Sched.vel w'
               = Velocity.sample (Sched.scrollY w) (Sched.vel w)))
    /\ (Sched.ticking w = false ->
        Sched.vel w' = Sched.vel w
        /\ Sched.sampled w' = Sched.sampled w
        /\ (0.5 <= Velocity.scrollVelocity (Sched.vel w) ->
            velocityOnUpdate element (Velocity.scrollVelocity (Sched.vel w'))
            = [])).
Proof.
  intros t0 y0 evs rest w w' element Hreach Hns Hrest.
  assert (Hs : sched_inv w)
    by (eapply sched_inv_exec; [apply sched_inv_init|exact Hreach]).
  assert (H0 : at_rest w w) by (split; [reflexivity|left; now repeat split]).
  destruct (at_rest_exec w rest w w' Hs H0 Hns Hrest)
    as [_ [[Hv [Hk Hn]]|[Hk [Hv [Hk' Hn]]]]].
  - split; [lia|]. split; [now left|]. intros _.
    split; [exact Hv|]. split; [exact Hn|]. intros Hge. rewrite Hv.
    unfold velocityOnUpdate.
    destruct (Qlt_le_dec (Velocity.scrollVelocity (Sched.vel w)) 0.5)
      as [Hlt|_]; [|reflexivity].
    exfalso. revert Hge. now apply Qlt_not_le.
  - split; [lia|]. split; [now right|]. intros Hf. congruence.
Qed.

Lemma velocity_frozen_when_scrolling_stops_witness :
  match Sched.exec (Sched.init 0 0) [Sched.Scroll 10 30; Sched.Frame 16] with
  | Some w =>
      match Sched.exec w [Sched.Timeout 60; Sched.Frame 70; Sched.Frame 1000] with
      | Some w' => Sched.vel w' = Sched.vel w
                   /\ Sched.sampled w' = Sched.sampled w
      | None => False
      end
  | None => False
  end.
Proof.
  destruct (Sched.exec (Sched.init 0 0) [Sched.Scroll 10 30; Sched.Frame 16])
    as [w|] eqn:E; [|vm_compute in E; discriminate E].
  destruct (Sched.exec w [Sched.Timeout 60; Sched.Frame 70; Sched.Frame 1000])
    as [w'|] eqn:E'.
  - destruct (velocity_frozen_when_scrolling_stops 0%Z 0 _
                [Sched.Timeout 60; Sched.Frame 70; Sched.Frame 1000]
                w w' 0%nat E) as [_ [_ F]].
    + repeat constructor.
    + exact E'.
    + destruct F as [Hv [Hn _]]; [|now split].
      clear E'. vm_compute in E. injection E as <-. reflexivity.
  - vm_compute in E. injection E as <-. vm_compute in E'. discriminate E'.
Defined.

(* ------------------------------------------------------------------ *)
(** * The throttle and a wrapped function that raises *)

(** X6.  [throttle] closes only after the wrapped function has returned.
    A call while the throttle is open runs the function; if it returns, the
    throttle is closed with a timer set and an immediate second call is
    dropped without running the function; if it raises, the exception
    leaves [throttle], the throttle stays open with no timer set, and the
    next call runs the function again.  For a function that never raises
    this is the throttle of the scroll sampler. *)
Theorem throttle_closes_after_return_only :
  forall (func : Sched.world -> Raising.result) (limit : Z) (w : Sched.world),
    Raising.keepsThrottle func ->
    Sched.inThrottle w = false ->
    match func w with
    | Raising.Returned w1 =>
        let w2 := Sched.setTimeout limit (Sched.set_inThrottle true w1) in
        Raising.throttle func limit w = Raising.Returned w2
        /\ Sched.inThrottle w2 = true
        /\ Sched.timers w2 = Sched.timers w ++ [(Sched.now w1 + limit)%Z]
        /\ Raising.throttle func limit w2 = Raising.Returned w2
    | Raising.Raised w1 =>
        Raising.throttle func limit w = Raising.Raised w1
        /\ Sched.inThrottle w1 = false
        /\ Sched.timers w1 = Sched.timers w
        /\ Raising.throttle func limit w1
           = match func w1 with
             | Raising.Returned w3 =>
                 Raising.Returned
                   (Sched.setTimeout limit (Sched.set_inThrottle true w3))
             | Raising.Raised w3 => Raising.Raised w3
             end
    end
    /\ (forall f : Sched.world -> Sched.world,
           Raising.throttle (fun u => Raising.Returned (f u)) limit w
           = Raising.Returned (Sched.throttle f limit w)).
Proof.
  intros func limit w Hkeep Hopen. split.
  - destruct (Hkeep w) as [Hi Ht].
    assert (T : Raising.throttle func limit w
                = match func w with
                  | Raising.Returned w1 =>
                      Raising.Returned
                        (Sched.setTimeout limit (Sched.set_inThrottle true w1))
                  | Raising.Raised w1 => Raising.Raised w1
                  end)
      by (unfold Raising.throttle; now rewrite Hopen).
    rewrite T. clear T.
    destruct (func w) as [w1|w1]; cbn [Raising.after] in Hi, Ht.
    + cbn zeta. split; [reflexivity|]. split; [reflexivity|].
      split; [cbn; now rewrite Ht|]. reflexivity.
    + rewrite Hopen in Hi. split; [reflexivity|]. split; [exact Hi|].
      split; [exact Ht|]. unfold Raising.throttle. now rewrite Hi.
  - intros f. unfold Raising.throttle, Sched.throttle. now rewrite Hopen.
Qed.

Lemma throttle_closes_after_return_only_witness :
  Raising.throttle (fun u => Raising.Raised u) 50 (Sched.init 0 0)
  = Raising.Raised (Sched.init 0 0)
  /\ Sched.inThrottle (Sched.init 0 0) = false.
Proof.
  pose proof (throttle_closes_after_return_only
                (fun u => Raising.Raised u) 50%Z (Sched.init 0 0)) as H.
  cbv beta iota in H.
  destruct H as [[H1 [H2 _]] _].
  - intros u. split; reflexivity.
  - reflexivity.
  - split; [exact H1|exact H2].
Defined.
